(** * qimgv: the orchestrator (core.cpp)

    A shallow embedding of [Core], the controller that sits between the
    directory listing, the decode cache, the loader, the scaler and the
    window.  Every slot of [Core] is a computation in a small state and
    fault monad over the members of the object; calls into the widgets,
    the loader, the scaler and the timer are recorded, in program order,
    in a log of effects. *)

From Stdlib Require Import ZArith String Ascii List Bool Lia.
From stdpp Require Import base option gmap strings pretty list fin_maps.

Local Open Scope string_scope.
Local Open Scope Z_scope.

(** * Values *)

(** [int] is rendered as [Z]: signed overflow is undefined in C++, and the
    arithmetic of the model agrees with the machine's wherever the latter is
    defined.  A [QString] is a [string]; [size()] counts its characters. *)

Module QString.

Definition size (s : string) : Z := Z.of_nat (String.length s).

(** [QString::left(n)]: the [n] leftmost characters, the whole string when
    it is shorter. *)
Definition left (n : nat) (s : string) : string := String.substring 0 n s.

(** [QString::right(n)]: the [n] rightmost characters, the whole string
    when it is shorter. *)
Definition right (n : nat) (s : string) : string :=
  String.substring (String.length s - n) n s.

(** [QString::number(int)]: decimal, with a leading minus sign. *)
Definition number (z : Z) : string := pretty z.

End QString.

Record QSize := { qs_width : Z; qs_height : Z }.

(** Pixel data is opaque: [ImageLib::scale] and [ImageLib::rotate] are free
    constructors over the decoded content of a file. *)
Inductive QImage :=
| Decoded (path : string)
| Scaled (src : QImage) (size : QSize) (method : Z)
| Rotated (src : QImage) (degrees : Z).

Module ImageLib.
Definition scale (src : QImage) (size : QSize) (method : Z) : QImage :=
  Scaled src size method.
Definition rotate (src : QImage) (degrees : Z) : QImage :=
  Rotated src degrees.
End ImageLib.

Inductive ImageType := STATIC | ANIMATED | VIDEO.

Definition ImageType_eqb (a b : ImageType) : bool :=
  match a, b with
  | STATIC, STATIC | ANIMATED, ANIMATED | VIDEO, VIDEO => true
  | _, _ => false
  end.

(** Modelled from the spec: the class [Image] and its subclasses
    [ImageStatic], [ImageAnimated] and [Video] (core.h and the image sources are not
    part of the excerpt).  An image has a stable name, a kind, pixel
    dimensions, the size of its file and, for the static kind, an edited
    variant that replaces the decoded content.  [type()] and
    [info()->imageType()] read the kind, and a [dynamic_cast] to the subclass
    of that kind succeeds. *)
Record Image := {
  img_name : string;
  img_type : ImageType;
  img_width : Z;
  img_height : Z;
  img_fileSize : Z;
  img_decoded : QImage;
  img_edited : option QImage
}.

Definition getImage (i : Image) : QImage :=
  match img_edited i with Some e => e | None => img_decoded i end.

Definition getPixmap (i : Image) : QImage := getImage i.
Definition getMovie (i : Image) : QImage := img_decoded i.
Definition getClip (i : Image) : QImage := img_decoded i.

Definition setEditedImage (i : Image) (e : QImage) : Image :=
  {| img_name := img_name i; img_type := img_type i;
     img_width := img_width i; img_height := img_height i;
     img_fileSize := img_fileSize i; img_decoded := img_decoded i;
     img_edited := Some e |}.

(** A [QPixmap*] handed over by the scaler; only its identity matters. *)
Definition QPixmap := Z.

Record ScalerRequest := {
  req_image : Image;
  req_size : QSize;
  req_string : string
}.

(** * Collaborators *)

(** The directory manager is seen through its const interface only: none of
    the slots modelled below changes the listing. *)
Record DirectoryManager := {
  fileCount : Z;
  fileNameAt : Z -> string;
  filePathAt : Z -> string;
  indexOf : string -> Z;
  hasImages : bool;
  checkRange : Z -> bool
}.

(** An implementation of the interface over a directory path and a list of
    file names, for the examples: a position out of range has the empty name
    and the empty path, and a name that is not listed has index [-1], as
    with [QList::indexOf]. *)
Module Listing.

Fixpoint index_from (k : Z) (n : string) (l : list string) : Z :=
  match l with
  | [] => -1
  | x :: r => if String.eqb x n then k else index_from (k + 1) n r
  end.

Definition in_range (l : list string) (i : Z) : bool :=
  (0 <=? i) && (i <? Z.of_nat (length l)).

Definition name_at (l : list string) (i : Z) : string :=
  if in_range l i then nth (Z.to_nat i) l "" else "".

Definition make (dir : string) (l : list string) : DirectoryManager := {|
  fileCount := Z.of_nat (length l);
  fileNameAt := name_at l;
  filePathAt := fun i => if in_range l i then dir +:+ "/" +:+ name_at l i else "";
  indexOf := fun n => index_from 0 n l;
  hasImages := negb (Nat.eqb (length l) 0);
  checkRange := in_range l
|}.

End Listing.

(** Modelled from the spec: the image cache (cache.cpp is not part of the
    excerpt).  A keyed store of decoded images, each with a reservation
    count; [insert] refuses a key that is present, [reserve] pins a present
    entry, [release] unpins it, and [trimTo] and [clear] evict the entries
    that are not reserved. *)
Record CacheEntry := { entry_image : Image; entry_reserved : nat }.

Record Cache := { entries : gmap string CacheEntry; locked : bool }.

Module CacheOps.

Definition with_entries (m : gmap string CacheEntry) (c : Cache) : Cache :=
  {| entries := m; locked := locked c |}.

Definition lock (c : Cache) : Cache := {| entries := entries c; locked := true |}.
Definition unlock (c : Cache) : Cache := {| entries := entries c; locked := false |}.

Definition contains (k : string) (c : Cache) : bool :=
  match entries c !! k with Some _ => true | None => false end.

Definition get (k : string) (c : Cache) : option Image :=
  entry_image <$> entries c !! k.

Definition insert (k : string) (i : Image) (c : Cache) : bool * Cache :=
  match entries c !! k with
  | Some _ => (false, c)
  | None => (true, with_entries (<[k := {| entry_image := i; entry_reserved := 0 |}]> (entries c)) c)
  end.

Definition reserve (k : string) (c : Cache) : bool * Cache :=
  match entries c !! k with
  | Some e =>
      (true, with_entries (<[k := {| entry_image := entry_image e;
                                     entry_reserved := S (entry_reserved e) |}]> (entries c)) c)
  | None => (false, c)
  end.

Definition release (k : string) (c : Cache) : Cache :=
  match entries c !! k with
  | Some e =>
      with_entries (<[k := {| entry_image := entry_image e;
                              entry_reserved := Nat.pred (entry_reserved e) |}]> (entries c)) c
  | None => c
  end.

Definition kept (keep : list string) (k : string) (e : CacheEntry) : bool :=
  bool_decide (k ∈ keep) || negb (Nat.eqb (entry_reserved e) 0).

Definition trimTo (keep : list string) (c : Cache) : Cache :=
  with_entries (filter (fun ke => kept keep ke.1 ke.2 = true) (entries c)) c.

Definition clear (c : Cache) : Cache := trimTo [] c.

(** The object behind a pointer obtained from [get] is the cached one: a
    write through the pointer is a write to the entry. *)
Definition store (k : string) (i : Image) (c : Cache) : Cache :=
  match entries c !! k with
  | Some e =>
      with_entries (<[k := {| entry_image := i; entry_reserved := entry_reserved e |}]> (entries c)) c
  | None => c
  end.

End CacheOps.

(** * The object *)

Record State := {
  currentIndex : Z;
  hasActiveImage : bool;
  isWaitingForLoader : bool;
  displayingFileName : string
}.

(** Calls that leave the object, by receiver. *)
Inductive Effect :=
(* mw *)
| ShowMessage (text : string)
| ShowMessageDirectoryEnd
| ShowMessageDirectoryStart
| SetInfoString (text : string)
| ShowDefault
(* viewerWidget, imageViewer *)
| ShowImage (pixmap : QImage)
| ShowAnimation (movie : QImage)
| ShowVideo (clip : QImage)
| CloseImage
| UpdateFrame (scaled : option QPixmap)
(* loader, scaler, loadingTimer *)
| Load (path : string)
| LoadExclusive (path : string)
| LoadBlocking (path : string)
| RequestScaled (req : ScalerRequest)
| TimerStart
| TimerStop
(* signals, the heap, the debug stream *)
| ImageIndexChanged (index : Z)
| DeleteImage (img : Image)
| DeletePixmap (scaled : option QPixmap)
| QDebug (text : string).

Record Core := {
  state : State;
  infiniteScrolling : bool;
  dirManager : DirectoryManager;
  cache : Cache;
  usePreloader : bool;
  mwVisible : bool;
  effects : list Effect
}.

Definition with_state (s : State) (c : Core) : Core :=
  {| state := s; infiniteScrolling := infiniteScrolling c;
     dirManager := dirManager c; cache := cache c;
     usePreloader := usePreloader c; mwVisible := mwVisible c;
     effects := effects c |}.

Definition with_cache (k : Cache) (c : Core) : Core :=
  {| state := state c; infiniteScrolling := infiniteScrolling c;
     dirManager := dirManager c; cache := k;
     usePreloader := usePreloader c; mwVisible := mwVisible c;
     effects := effects c |}.

Definition with_mwVisible (b : bool) (c : Core) : Core :=
  {| state := state c; infiniteScrolling := infiniteScrolling c;
     dirManager := dirManager c; cache := cache c;
     usePreloader := usePreloader c; mwVisible := b;
     effects := effects c |}.

Definition with_effects (l : list Effect) (c : Core) : Core :=
  {| state := state c; infiniteScrolling := infiniteScrolling c;
     dirManager := dirManager c; cache := cache c;
     usePreloader := usePreloader c; mwVisible := mwVisible c;
     effects := l |}.

Definition set_currentIndex (i : Z) (s : State) : State :=
  {| currentIndex := i; hasActiveImage := hasActiveImage s;
     isWaitingForLoader := isWaitingForLoader s;
     displayingFileName := displayingFileName s |}.

Definition set_hasActiveImage (b : bool) (s : State) : State :=
  {| currentIndex := currentIndex s; hasActiveImage := b;
     isWaitingForLoader := isWaitingForLoader s;
     displayingFileName := displayingFileName s |}.

Definition set_isWaitingForLoader (b : bool) (s : State) : State :=
  {| currentIndex := currentIndex s; hasActiveImage := hasActiveImage s;
     isWaitingForLoader := b;
     displayingFileName := displayingFileName s |}.

Definition set_displayingFileName (n : string) (s : State) : State :=
  {| currentIndex := currentIndex s; hasActiveImage := hasActiveImage s;
     isWaitingForLoader := isWaitingForLoader s;
     displayingFileName := n |}.

(** * The monad of slots *)

Inductive Fault := NullDereference.

Inductive Outcome (A : Type) :=
| Returned (a : A) (c : Core)
| Crashed (f : Fault).
Arguments Returned {A} a c.
Arguments Crashed {A} f.

Definition Slot (A : Type) : Type := Core -> Outcome A.

Definition ret {A} (a : A) : Slot A := fun c => Returned a c.

Definition bind {A B} (m : Slot A) (k : A -> Slot B) : Slot B :=
  fun c => match m c with
           | Returned a c' => k a c'
           | Crashed f => Crashed f
           end.

Declare Scope slot_scope.
Delimit Scope slot_scope with slot.
Notation "'let*' x := m 'in' k" := (bind m (fun x => k))
  (at level 10, x name, m at level 100, k at level 200) : slot_scope.
Notation "m ;; k" := (bind m (fun _ => k))
  (at level 100, k at level 200, right associativity) : slot_scope.
Local Open Scope slot_scope.

Definition read {A} (f : Core -> A) : Slot A := fun c => Returned (f c) c.
Definition update (f : Core -> Core) : Slot unit := fun c => Returned tt (f c).
Definition crash {A} (f : Fault) : Slot A := fun _ => Crashed f.

(** The log grows at its end. *)
Definition call (e : Effect) : Slot unit :=
  update (fun c => with_effects (effects c ++ [e]) c).

Definition assign (f : State -> State) : Slot unit :=
  update (fun c => with_state (f (state c)) c).

(** [p->member] on a pointer to an image. *)
Definition deref (p : option Image) : Slot Image :=
  match p with
  | Some i => ret i
  | None => crash NullDereference
  end.

Definition cache_do (f : Cache -> Cache) : Slot unit :=
  update (fun c => with_cache (f (cache c)) c).

Definition cache_ask {A} (f : Cache -> bool * Cache) (k : bool -> Slot A) : Slot A :=
  fun c => let r := f (cache c) in k r.1 (with_cache r.2 c).

(** * The slots of [Core] *)

Definition cache_lock : Slot unit := cache_do CacheOps.lock.
Definition cache_unlock : Slot unit := cache_do CacheOps.unlock.
Definition cache_contains (k : string) : Slot bool :=
  read (fun c => CacheOps.contains k (cache c)).
Definition cache_get (k : string) : Slot (option Image) :=
  read (fun c => CacheOps.get k (cache c)).

Definition showGui : Slot unit :=
  let* visible := read mwVisible in
  if negb visible then
    call ShowDefault ;; update (with_mwVisible true)
  else ret tt.

Definition updateInfoString : Slot unit :=
  let* st := read state in
  let* dm := read dirManager in
  let infoString := "" in
  let infoString := infoString +:+ ("[ " +:+
                      QString.number (currentIndex st + 1) +:+
                      " / " +:+
                      QString.number (fileCount dm) +:+
                      " ]   ") in
  if negb (isWaitingForLoader st) then
    let* p := cache_get (fileNameAt dm (currentIndex st)) in
    let* img := deref p in
    let fullName := img_name img in
    let name :=
      if 95 <? QString.size fullName then
        QString.left 95 fullName +:+ " (...) " +:+ QString.right 12 fullName
      else fullName in
    let infoString := infoString +:+ (name +:+ "  ") in
    let infoString := infoString +:+ ("(" +:+
                        QString.number (img_width img) +:+
                        " x " +:+
                        QString.number (img_height img) +:+
                        "  ") in
    let infoString := infoString +:+ (QString.number (img_fileSize img) +:+ " KB)") in
    call (SetInfoString infoString)
  else
    call (SetInfoString infoString).

Definition displayImage (p : option Image) : Slot unit :=
  call TimerStop ;;
  assign (set_isWaitingForLoader false) ;;
  assign (set_hasActiveImage true) ;;
  match p with
  | Some img =>
      match img_type img with
      | STATIC => call (ShowImage (getPixmap img))
      | ANIMATED => call (ShowAnimation (getMovie img))
      | VIDEO => call CloseImage ;; showGui ;; call (ShowVideo (getClip img))
      end ;;
      assign (set_displayingFileName (img_name img)) ;;
      let* st := read state in
      call (ImageIndexChanged (currentIndex st)) ;;
      updateInfoString
  | None =>
      call (ShowMessage "Error: could not load image.")
  end.

Definition resize (size : QSize) : Slot unit :=
  let* st := read state in
  let* dm := read dirManager in
  if 0 <=? currentIndex st then
    let nameKey := fileNameAt dm (currentIndex st) in
    cache_lock ;;
    cache_ask (CacheOps.reserve nameKey) (fun reserved =>
    if reserved then
      let* p := cache_get nameKey in
      match p with
      | Some img =>
          if ImageType_eqb (img_type img) STATIC then
            let edited := setEditedImage img (ImageLib.scale (getImage img) size 1) in
            cache_do (CacheOps.store nameKey edited) ;;
            cache_do (CacheOps.release nameKey) ;;
            cache_unlock ;;
            displayImage (Some edited)
          else
            cache_do (CacheOps.release nameKey) ;;
            cache_unlock ;;
            call (ShowMessage "Editing gifs/video is unsupported.")
      | None =>
          cache_do (CacheOps.release nameKey) ;;
          cache_unlock ;;
          call (ShowMessage "Editing gifs/video is unsupported.")
      end
    else
      cache_unlock ;;
      call (QDebug "Core::resize() - could not lock cache object."))
  else ret tt.

Definition scalingRequest (size : QSize) : Slot unit :=
  let* st := read state in
  let* dm := read dirManager in
  if hasActiveImage st && negb (isWaitingForLoader st) then
    cache_lock ;;
    let* forScale := cache_get (fileNameAt dm (currentIndex st)) in
    match forScale with
    | Some img =>
        let path := filePathAt dm (currentIndex st) in
        call (RequestScaled {| req_image := img; req_size := size; req_string := path |})
    | None => ret tt
    end ;;
    cache_unlock
  else ret tt.

Definition onScalingFinished (scaled : option QPixmap) (req : ScalerRequest) : Slot unit :=
  let* st := read state in
  let* dm := read dirManager in
  if hasActiveImage st && String.eqb (filePathAt dm (currentIndex st)) (req_string req) then
    call (UpdateFrame scaled)
  else
    call (DeletePixmap scaled).

Definition rotateByDegrees (degrees : Z) : Slot unit :=
  let* st := read state in
  let* dm := read dirManager in
  if 0 <=? currentIndex st then
    let nameKey := fileNameAt dm (currentIndex st) in
    cache_lock ;;
    cache_ask (CacheOps.reserve nameKey) (fun reserved =>
    if reserved then
      let* p := cache_get nameKey in
      match p with
      | Some img =>
          if ImageType_eqb (img_type img) STATIC then
            let edited := setEditedImage img (ImageLib.rotate (getImage img) degrees) in
            cache_do (CacheOps.store nameKey edited) ;;
            cache_do (CacheOps.release nameKey) ;;
            cache_unlock ;;
            displayImage (Some edited)
          else
            cache_do (CacheOps.release nameKey) ;;
            cache_unlock ;;
            call (ShowMessage "Editing gifs/video is unsupported.")
      | None =>
          cache_do (CacheOps.release nameKey) ;;
          cache_unlock ;;
          call (ShowMessage "Editing gifs/video is unsupported.")
      end
    else
      cache_unlock ;;
      call (QDebug "Core::rotateByDegrees() - could not lock cache object."))
  else ret tt.

Definition rotateLeft : Slot unit := rotateByDegrees (-90).
Definition rotateRight : Slot unit := rotateByDegrees 90.

Definition trimCache : Slot unit :=
  let* st := read state in
  let* dm := read dirManager in
  let list := [] in
  let list := (list ++ [fileNameAt dm (currentIndex st - 1)])%list in
  let list := (list ++ [fileNameAt dm (currentIndex st)])%list in
  let list := (list ++ [fileNameAt dm (currentIndex st + 1)])%list in
  cache_lock ;;
  cache_do (CacheOps.trimTo list) ;;
  cache_unlock.

Definition clearCache : Slot unit :=
  cache_lock ;;
  cache_do CacheOps.clear ;;
  cache_unlock.

Definition reset : Slot unit :=
  assign (set_hasActiveImage false) ;;
  assign (set_isWaitingForLoader false) ;;
  assign (set_currentIndex 0) ;;
  assign (set_displayingFileName "") ;;
  clearCache.

Definition onLoadStarted : Slot unit :=
  assign (set_isWaitingForLoader true) ;;
  updateInfoString ;;
  call TimerStart ;;
  trimCache.

Definition onLoadingTimeout : Slot unit := ret tt.

Definition preload (index : Z) : Slot unit :=
  let* use := read usePreloader in
  let* dm := read dirManager in
  if use && checkRange dm index then
    let* cached := cache_contains (fileNameAt dm index) in
    if negb cached then call (Load (filePathAt dm index)) else ret tt
  else ret tt.

Definition loadByIndex (index : Z) : Slot bool :=
  let* dm := read dirManager in
  if (0 <=? index) && (index <? fileCount dm) then
    assign (set_currentIndex index) ;;
    onLoadStarted ;;
    let* st := read state in
    let nameKey := fileNameAt dm (currentIndex st) in
    let* cached := cache_contains nameKey in
    (if cached then
       let* p := cache_get nameKey in displayImage p
     else
       call (LoadExclusive (filePathAt dm (currentIndex st)))) ;;
    ret true
  else ret false.

Definition loadByIndexBlocking (index : Z) : Slot bool :=
  let* dm := read dirManager in
  if (0 <=? index) && (index <? fileCount dm) then
    assign (set_currentIndex index) ;;
    onLoadStarted ;;
    let* st := read state in
    let nameKey := fileNameAt dm (currentIndex st) in
    let* cached := cache_contains nameKey in
    (if cached then
       let* p := cache_get nameKey in displayImage p
     else
       call (LoadExclusive (filePathAt dm (currentIndex st)))) ;;
    ret true
  else ret false.

Definition slotNextImage : Slot unit :=
  let* dm := read dirManager in
  let* st := read state in
  let* infinite := read infiniteScrolling in
  if hasImages dm then
    let index := currentIndex st + 1 in
    let proceed (index : Z) : Slot unit :=
      assign (set_currentIndex index) ;;
      onLoadStarted ;;
      let* st := read state in
      let nameKey := fileNameAt dm (currentIndex st) in
      let* cached := cache_contains nameKey in
      (if cached then
         let* p := cache_get nameKey in displayImage p
       else
         call (LoadExclusive (filePathAt dm (currentIndex st)))) ;;
      preload (index + 1) in
    if fileCount dm <=? index then
      if infinite then proceed 0
      else call ShowMessageDirectoryEnd
    else proceed index
  else ret tt.

Definition slotPrevImage : Slot unit :=
  let* dm := read dirManager in
  let* st := read state in
  let* infinite := read infiniteScrolling in
  if hasImages dm then
    let index := currentIndex st - 1 in
    let proceed (index : Z) : Slot unit :=
      assign (set_currentIndex index) ;;
      onLoadStarted ;;
      let* st := read state in
      let nameKey := fileNameAt dm (currentIndex st) in
      let* cached := cache_contains nameKey in
      (if cached then
         let* p := cache_get nameKey in displayImage p
       else
         call (LoadExclusive (filePathAt dm (currentIndex st)))) ;;
      preload (index - 1) in
    if index <? 0 then
      if infinite then proceed (fileCount dm - 1)
      else call ShowMessageDirectoryStart
    else proceed index
  else ret tt.

Definition jumpToFirst : Slot unit :=
  let* dm := read dirManager in
  if hasImages dm then
    loadByIndex 0 ;;
    call ShowMessageDirectoryStart
  else ret tt.

Definition jumpToLast : Slot unit :=
  let* dm := read dirManager in
  if hasImages dm then
    loadByIndex (fileCount dm - 1) ;;
    call ShowMessageDirectoryEnd
  else ret tt.

Definition onLoadFinished (p : option Image) : Slot unit :=
  let* dm := read dirManager in
  let* st := read state in
  let* img := deref p in
  let index := indexOf dm (img_name img) in
  let isRelevant := negb ((index <? currentIndex st - 1) || (currentIndex st + 1 <? index)) in
  let nameKey := fileNameAt dm index in
  let* resolved :=
    (if isRelevant then
       cache_ask (CacheOps.insert nameKey img) (fun inserted =>
         if negb inserted then
           call (DeleteImage img) ;;
           cache_get nameKey
         else ret (Some img))
     else
       (* [img] dangles from here on; it is not used again, since an index
          outside the window is not the current one *)
       call (DeleteImage img) ;;
       ret (Some img)) in
  if index =? currentIndex st then displayImage resolved else ret tt.

(** * What the slots compute, in closed form *)

(** The pieces of the info string, in the order in which
    [updateInfoString] appends them. *)
Module InfoString.

Definition position (index count : Z) : string :=
  "[ " +:+ QString.number (index + 1) +:+ " / " +:+ QString.number count +:+ " ]   ".

Definition shown_name (fullName : string) : string :=
  if 95 <? QString.size fullName then
    QString.left 95 fullName +:+ " (...) " +:+ QString.right 12 fullName
  else fullName.

Definition details (img : Image) : string :=
  "(" +:+ QString.number (img_width img) +:+ " x " +:+
  QString.number (img_height img) +:+ "  ".

Definition loaded (index count : Z) (img : Image) : string :=
  ((position index count +:+ (shown_name (img_name img) +:+ "  "))
     +:+ details img)
    +:+ (QString.number (img_fileSize img) +:+ " KB)").

End InfoString.

(** The window handed to [trimTo]. *)
Definition window (dm : DirectoryManager) (k : Z) : list string :=
  [fileNameAt dm (k - 1); fileNameAt dm k; fileNameAt dm (k + 1)].

Definition trimmed (c : Core) : Cache :=
  {| entries := filter (fun ke => CacheOps.kept (window (dirManager c) (currentIndex (state c)))
                                    ke.1 ke.2 = true)
                       (entries (cache c));
     locked := false |}.

Definition started (c : Core) : Core :=
  {| state := set_isWaitingForLoader true (state c);
     infiniteScrolling := infiniteScrolling c;
     dirManager := dirManager c;
     cache := trimmed c;
     usePreloader := usePreloader c;
     mwVisible := mwVisible c;
     effects := effects c ++
       [SetInfoString (InfoString.position (currentIndex (state c)) (fileCount (dirManager c)));
        TimerStart] |}.

(** The calls by which [displayImage] hands an image to the viewer. *)
Definition frame_calls (img : Image) (visible : bool) : list Effect :=
  match img_type img with
  | STATIC => [ShowImage (getPixmap img)]
  | ANIMATED => [ShowAnimation (getMovie img)]
  | VIDEO => [CloseImage] ++ (if visible then [] else [ShowDefault]) ++ [ShowVideo (getClip img)]
  end.

Definition displayed (img : Image) (info : string) (c : Core) : Core :=
  {| state := {| currentIndex := currentIndex (state c);
                 hasActiveImage := true;
                 isWaitingForLoader := false;
                 displayingFileName := img_name img |};
     infiniteScrolling := infiniteScrolling c;
     dirManager := dirManager c;
     cache := cache c;
     usePreloader := usePreloader c;
     mwVisible := match img_type img with VIDEO => true | _ => mwVisible c end;
     effects := effects c ++ [TimerStop] ++ frame_calls img (mwVisible c) ++
                [ImageIndexChanged (currentIndex (state c)); SetInfoString info] |}.

(** Navigation: the index is stored, the load is announced and the cache
    trimmed, and the image at the index is shown from the cache or
    requested from the loader. *)
Definition go (index : Z) (c : Core) : Core :=
  with_state (set_currentIndex index (state c)) c.

Definition entered (c : Core) : Core :=
  let c1 := started c in
  let dm := dirManager c in
  let k := currentIndex (state c) in
  match entries (cache c1) !! fileNameAt dm k with
  | Some e => displayed (entry_image e) (InfoString.loaded k (fileCount dm) (entry_image e)) c1
  | None => with_effects (effects c1 ++ [LoadExclusive (filePathAt dm k)]) c1
  end.

Definition preloaded (index : Z) (c : Core) : Core :=
  if usePreloader c && checkRange (dirManager c) index
     && negb (CacheOps.contains (fileNameAt (dirManager c) index) (cache c))
  then with_effects (effects c ++ [Load (filePathAt (dirManager c) index)]) c
  else c.

(** Where the next and the previous step lead: nowhere at the boundary of
    a listing that does not wrap. *)
Definition next_index (c : Core) : option Z :=
  let index := currentIndex (state c) + 1 in
  if fileCount (dirManager c) <=? index then
    if infiniteScrolling c then Some 0 else None
  else Some index.

Definition prev_index (c : Core) : option Z :=
  let index := currentIndex (state c) - 1 in
  if index <? 0 then
    if infiniteScrolling c then Some (fileCount (dirManager c) - 1) else None
  else Some index.

Definition is_LoadBlocking (e : Effect) : bool :=
  match e with LoadBlocking _ => true | _ => false end.

Definition dropped (img : Image) (c : Core) : Core :=
  with_effects (effects c ++ [DeleteImage img]) c.

Definition inserted (img : Image) (c : Core) : Core :=
  with_cache
    (CacheOps.insert (fileNameAt (dirManager c) (indexOf (dirManager c) (img_name img)))
       img (cache c)).2 c.

(** Navigation commands and the slots that carry them out. *)
Inductive Navigation :=
| Next
| Previous
| ToIndex (index : Z)
| ToIndexBlocking (index : Z)
| ToFirst
| ToLast.

Definition navigate (n : Navigation) : Slot unit :=
  match n with
  | Next => slotNextImage
  | Previous => slotPrevImage
  | ToIndex index => loadByIndex index ;; ret tt
  | ToIndexBlocking index => loadByIndexBlocking index ;; ret tt
  | ToFirst => jumpToFirst
  | ToLast => jumpToLast
  end.

(** The index a navigation leads to, when it is carried out. *)
Definition destination (n : Navigation) (c : Core) : option Z :=
  let dm := dirManager c in
  match n with
  | Next => if hasImages dm then next_index c else None
  | Previous => if hasImages dm then prev_index c else None
  | ToIndex index | ToIndexBlocking index =>
      if (0 <=? index) && (index <? fileCount dm) then Some index else None
  | ToFirst =>
      if hasImages dm && (0 <? fileCount dm) then Some 0 else None
  | ToLast =>
      if hasImages dm && (0 <? fileCount dm) then Some (fileCount dm - 1) else None
  end.

(** The window of the claim, in the words of the specification: the names
    at [k-1], [k] and [k+1], those positions only that are in [0, N). *)
Definition valid_window (dm : DirectoryManager) (k : Z) : list string :=
  map (fileNameAt dm)
      (List.filter (fun j => (0 <=? j) && (j <? fileCount dm)) [k - 1; k; k + 1]).

(** The info string in the words of the specification. *)
Definition spec_infoString (index count : Z) (name : string) (width height size : Z) : string :=
  "[" +:+ QString.number index +:+ " / " +:+ QString.number count +:+ "]  " +:+
  name +:+ "  (" +:+ QString.number width +:+ " x " +:+ QString.number height +:+
  "  " +:+ QString.number size +:+ "KB)".

(** * Concrete objects used in examples *)

Module Sample.

Definition picture (n : string) (t : ImageType) : Image :=
  {| img_name := n; img_type := t; img_width := 10; img_height := 20;
     img_fileSize := 5; img_decoded := Decoded n; img_edited := None |}.

Definition abc : DirectoryManager := Listing.make "/d" ["a.png"; "b.gif"; "c.png"].

Definition cached (l : list (string * Image)) : Cache :=
  {| entries := list_to_map (map (fun ki => (ki.1, {| entry_image := ki.2; entry_reserved := 0 |})) l);
     locked := false |}.

Definition core (i : Z) (active waiting infinite : bool) (k : Cache) : Core :=
  {| state := {| currentIndex := i; hasActiveImage := active;
                 isWaitingForLoader := waiting; displayingFileName := "" |};
     infiniteScrolling := infinite;
     dirManager := abc;
     cache := k;
     usePreloader := true;
     mwVisible := true;
     effects := [] |}.

End Sample.

Module Ghost.

(** A decode that completes after its file has left the listing. *)
Definition image : Image := Sample.picture "gone.png" STATIC.

Definition before : Core := Sample.core 0 false false false (Sample.cached []).

Definition delivered : Core :=
  match onLoadFinished (Some image) before with
  | Returned _ c => c
  | Crashed _ => before
  end.

Definition reopened : Core :=
  match navigate (ToIndex 0) delivered with
  | Returned _ c => c
  | Crashed _ => delivered
  end.

End Ghost.

Module LongName.

Definition name : string :=
  "0123456789012345678901234567890123456789012345678901234567890123456789" +:+
  "012345678901234567890123456789.png".

Definition image : Image := Sample.picture name STATIC.

Definition core : Core :=
  {| state := {| currentIndex := 0; hasActiveImage := true;
                 isWaitingForLoader := false; displayingFileName := name |};
     infiniteScrolling := false;
     dirManager := Listing.make "/d" [name];
     cache := Sample.cached [(name, image)];
     usePreloader := true;
     mwVisible := true;
     effects := [] |}.

End LongName.

(** * Viewing a listing that does not change *)

(** Eleven of the connections made in [connectComponents] and [initActions]:
    those whose slots work on the navigation state, the cache, the loader,
    the scaler and the viewer, and leave the listing of the directory manager
    as it is.

    - [actionManager]: [nextImage], [prevImage], [jumpToFirst], [jumpToLast],
      [rotateLeft], [rotateRight];
    - [thumbnailPanelWidget]: [thumbnailClicked(int)], to [loadByIndex];
    - [mw]: [resizeRequested(QSize)], to [resize(QSize)];
    - [imageViewer]: [scalingRequested(QSize)], to [scalingRequest];
    - [scaler]: [scalingFinished], to [onScalingFinished];
    - [loader]: [loadFinished], to [onLoadFinished].

    The other connections are not among them: the action [resize()], which
    opens the resize dialog ([showResizeDialog], modelled further down); the
    changes of the listing [fileRemovedAt] and [fileAddedAt] ([onFileRemoved]
    and [onFileAdded], further down); and [opened], [copyRequested],
    [moveRequested], [removeFile], [thumbnailReady] and [settingsChanged],
    whose slots need parts of the directory manager and of the settings that
    are not modelled.  What is proved of [run] is proved of sequences of these
    eleven, on one listing. *)
Inductive Viewing :=
| NextImage
| PrevImage
| JumpToFirst
| JumpToLast
| ThumbnailClicked (index : Z)
| RotateLeft
| RotateRight
| ResizeRequested (size : QSize)
| ScalingRequested (size : QSize)
| ScalingFinished (scaled : option QPixmap) (req : ScalerRequest)
| LoadFinished (img : option Image).

Definition deliver (s : Viewing) : Slot unit :=
  match s with
  | NextImage => slotNextImage
  | PrevImage => slotPrevImage
  | JumpToFirst => jumpToFirst
  | JumpToLast => jumpToLast
  | ThumbnailClicked index => loadByIndex index ;; ret tt
  | RotateLeft => rotateLeft
  | RotateRight => rotateRight
  | ResizeRequested size => resize size
  | ScalingRequested size => scalingRequest size
  | ScalingFinished scaled req => onScalingFinished scaled req
  | LoadFinished img => onLoadFinished img
  end.

(** The slots run one after the other on the thread of the object. *)
Fixpoint run (l : list Viewing) : Slot unit :=
  match l with
  | [] => ret tt
  | s :: rest => deliver s ;; run rest
  end.

(** The object after an edit of the static image cached under [key]: the
    edited variant is written to the cached image, whose reservation count is
    as before, the cache is unlocked, and the image is displayed. *)
Definition retouched (key : string) (e : CacheEntry) (content : QImage) (c : Core) : Core :=
  let img := setEditedImage (entry_image e) content in
  displayed img
    (InfoString.loaded (currentIndex (state c)) (fileCount (dirManager c)) img)
    (with_cache
       {| entries := <[key := {| entry_image := img;
                                 entry_reserved := entry_reserved e |}]> (entries (cache c));
          locked := false |} c).

(** Every unreserved entry of the cache is filed under a name of the window
    around the current index. *)
Definition windowed (c : Core) : Prop :=
  forall key e,
    entries (cache c) !! key = Some e ->
    key ∈ window (dirManager c) (currentIndex (state c)) \/ (0 < entry_reserved e)%nat.

Definition unreserved (c : Core) : Prop :=
  forall key e, entries (cache c) !! key = Some e -> entry_reserved e = 0%nat.

Definition is_ShowMessage (e : Effect) : bool :=
  match e with ShowMessage _ => true | _ => false end.

Definition is_loader_call (e : Effect) : bool :=
  match e with
  | Load _ | LoadExclusive _ | LoadBlocking _ => true
  | _ => false
  end.

(** What one of the eleven slots can do to the current index and to the
    cache: nothing to the entries; enter an index, trimming the cache to its
    window; file a freshly loaded image under a free name of the window; or
    write an edit to the entry of the current index. *)
Inductive Moved (c c' : Core) : Prop :=
| moved_same :
    currentIndex (state c') = currentIndex (state c) ->
    entries (cache c') = entries (cache c) ->
    locked (cache c') = locked (cache c) \/ locked (cache c') = false ->
    Moved c c'
| moved_entered (k : Z) :
    currentIndex (state c') = k ->
    (0 <= currentIndex (state c) < fileCount (dirManager c) ->
     0 <= k < fileCount (dirManager c)) ->
    cache c' = trimmed (go k c) ->
    Moved c c'
| moved_inserted (img : Image) (index : Z) :
    currentIndex (state c') = currentIndex (state c) ->
    currentIndex (state c) - 1 <= index <= currentIndex (state c) + 1 ->
    entries (cache c) !! fileNameAt (dirManager c) index = None ->
    entries (cache c')
    = <[fileNameAt (dirManager c) index := {| entry_image := img; entry_reserved := 0 |}]>
        (entries (cache c)) ->
    locked (cache c') = locked (cache c) ->
    Moved c c'
| moved_edited (e : CacheEntry) (img : Image) :
    currentIndex (state c') = currentIndex (state c) ->
    entries (cache c) !! fileNameAt (dirManager c) (currentIndex (state c)) = Some e ->
    entries (cache c')
    = <[fileNameAt (dirManager c) (currentIndex (state c)) :=
          {| entry_image := img; entry_reserved := entry_reserved e |}]>
        (entries (cache c)) ->
    locked (cache c') = false ->
    Moved c c'.

(** * Slots that call the thumbnail strip and the dialogs *)

(** Modelled from the spec: [Image::size()], the pixel dimensions of the
    image. *)
Definition img_size (i : Image) : QSize :=
  {| qs_width := img_width i; qs_height := img_height i |}.

Inductive WidgetCall :=
| RemoveItemAt (index : Z)
| AddItemAt (index : Z)
| ShowResizeDialog (size : QSize).

(** The calls to these widgets are logged apart from [effects], each with
    the number of effects logged before it, which fixes its place in program
    order.  The slots below thread that log. *)
Definition Widgets := list (nat * WidgetCall).

Definition widget (wc : WidgetCall) (w : Widgets) : Slot Widgets :=
  let* n := read (fun c => length (effects c)) in
  ret (w ++ [(n, wc)])%list.

Definition onFileRemoved (index : Z) (w : Widgets) : Slot Widgets :=
  let* w := widget (RemoveItemAt index) w in
  let* st := read state in
  let* dm := read dirManager in
  (if currentIndex st =? index then
     if fileCount dm =? 0 then
       call CloseImage ;;
       call (SetInfoString "No file opened.")
     else
       let* loaded := loadByIndexBlocking (currentIndex st) in
       if negb loaded then
         let* st := read state in
         assign (set_currentIndex (currentIndex st - 1)) ;;
         let* st := read state in
         loadByIndexBlocking (currentIndex st) ;;
         ret tt
       else ret tt
   else ret tt) ;;
  ret w.

Definition onFileAdded (index : Z) (w : Widgets) : Slot Widgets :=
  widget (AddItemAt index) w.

Definition showResizeDialog (w : Widgets) : Slot Widgets :=
  let* st := read state in
  let* dm := read dirManager in
  let nameKey := fileNameAt dm (currentIndex st) in
  let* p := cache_get nameKey in
  let* img := deref p in
  widget (ShowResizeDialog (img_size img)) w.

Definition with_dirManager (dm : DirectoryManager) (c : Core) : Core :=
  {| state := state c; infiniteScrolling := infiniteScrolling c;
     dirManager := dm; cache := cache c;
     usePreloader := usePreloader c; mwVisible := mwVisible c;
     effects := effects c |}.

Module Session.

(** A short session on the sample listing: step to the second file, its
    decode arrives, the neighbour's decode arrives, an edit is refused, a
    scaled frame is requested and comes back, and the first file is opened
    again. *)
Definition b : Image := Sample.picture "b.gif" ANIMATED.
Definition c_png : Image := Sample.picture "c.png" STATIC.

Definition signals : list Viewing :=
  [NextImage; LoadFinished (Some b); LoadFinished (Some c_png); RotateRight;
   ScalingRequested {| qs_width := 4; qs_height := 3 |};
   ScalingFinished (Some 7)
     {| req_image := b; req_size := {| qs_width := 4; qs_height := 3 |};
        req_string := "/d/b.gif" |};
   NextImage; ResizeRequested {| qs_width := 4; qs_height := 3 |}; JumpToFirst].

Definition start : Core := Sample.core 0 false false false (Sample.cached []).

Definition finish : Core :=
  match run signals start with
  | Returned _ c => c
  | Crashed _ => start
  end.

End Session.

(** * Scaling results *)

(** C1.  A finished scale request leaves the object as it was and makes
    exactly one call: either the result is handed to the viewer, and then
    the request's path is the path at the current index (and an image is
    active), or the result is deleted. *)
Theorem onScalingFinished_current_or_deleted (scaled : option QPixmap) (req : ScalerRequest) (c : Core) :
  (onScalingFinished scaled req c
     = Returned tt (with_effects (effects c ++ [UpdateFrame scaled]) c)
   /\ req_string req = filePathAt (dirManager c) (currentIndex (state c))
   /\ hasActiveImage (state c) = true)
  \/
  (onScalingFinished scaled req c
     = Returned tt (with_effects (effects c ++ [DeletePixmap scaled]) c)
   /\ (req_string req <> filePathAt (dirManager c) (currentIndex (state c))
       \/ hasActiveImage (state c) = false)).
Proof.
  unfold onScalingFinished, bind, read, call, update.
  destruct (hasActiveImage (state c)) eqn:Hactive; cbn.
  - destruct (String.eqb_spec (filePathAt (dirManager c) (currentIndex (state c)))
                              (req_string req)) as [Heq | Hne].
    + left. auto.
    + right. split; [reflexivity | left; congruence].
  - right. split; [reflexivity | now right].
Qed.

(** * Load completion on a null image *)

(** C3.  The handler reads the name of the image before anything else: on
    a null image it faults, whatever the state of the object. *)
Theorem onLoadFinished_null_faults (c : Core) :
  onLoadFinished None c = Crashed NullDereference.
Proof. reflexivity. Qed.

(** * Displaying a null image *)

(** The branch of [displayImage] for a null pointer: the timer is stopped,
    the two flags are assigned, and the error message is shown.  No call of
    [displayImage] in the source passes a null pointer: a failed decode
    arrives at [onLoadFinished], which faults before it gets here. *)
Lemma displayImage_null (c : Core) :
  displayImage None c
  = Returned tt
      (with_effects (effects c ++ [TimerStop; ShowMessage "Error: could not load image."])
         (with_state {| currentIndex := currentIndex (state c);
                        hasActiveImage := true;
                        isWaitingForLoader := false;
                        displayingFileName := displayingFileName (state c) |} c)).
Proof.
  unfold displayImage, bind, call, assign, update; cbn.
  rewrite <- app_assoc. reflexivity.
Qed.

(** * Evaluation of the slots *)

Arguments QString.number : simpl never.
Arguments QString.left : simpl never.
Arguments QString.right : simpl never.
Arguments QString.size : simpl never.

Ltac slot_unfold :=
  unfold cache_lock, cache_unlock, cache_contains, cache_get,
         bind, ret, read, update, call, assign, cache_do, cache_ask, crash, deref;
  unfold CacheOps.get, CacheOps.contains.

Ltac slot_run := repeat (progress (slot_unfold; unfold with_effects, with_state, with_cache; cbn)).

Lemma updateInfoString_waiting (c : Core) :
  isWaitingForLoader (state c) = true ->
  updateInfoString c
  = Returned tt
      (with_effects
         (effects c ++ [SetInfoString
            (InfoString.position (currentIndex (state c)) (fileCount (dirManager c)))])
         c).
Proof.
  intros Hw. unfold updateInfoString. slot_unfold. rewrite Hw. reflexivity.
Qed.

Lemma updateInfoString_loaded (c : Core) (e : CacheEntry) :
  isWaitingForLoader (state c) = false ->
  entries (cache c) !! fileNameAt (dirManager c) (currentIndex (state c)) = Some e ->
  updateInfoString c
  = Returned tt
      (with_effects
         (effects c ++ [SetInfoString
            (InfoString.loaded (currentIndex (state c)) (fileCount (dirManager c))
               (entry_image e))])
         c).
Proof.
  intros Hw He. unfold updateInfoString. slot_unfold.
  rewrite Hw. cbn. rewrite He. reflexivity.
Qed.

Lemma updateInfoString_missing (c : Core) :
  isWaitingForLoader (state c) = false ->
  entries (cache c) !! fileNameAt (dirManager c) (currentIndex (state c)) = None ->
  updateInfoString c = Crashed NullDereference.
Proof.
  intros Hw He. unfold updateInfoString. slot_unfold.
  rewrite Hw. cbn. rewrite He. reflexivity.
Qed.

Lemma onLoadStarted_eval (c : Core) :
  onLoadStarted c = Returned tt (started c).
Proof.
  unfold onLoadStarted, trimCache, updateInfoString. slot_unfold. cbn.
  unfold started, with_effects, with_cache, trimmed, CacheOps.unlock, CacheOps.trimTo; cbn.
  rewrite <- app_assoc. reflexivity.
Qed.

Lemma displayImage_eval (img : Image) (c : Core) (e : CacheEntry) :
  entries (cache c) !! fileNameAt (dirManager c) (currentIndex (state c)) = Some e ->
  displayImage (Some img) c
  = Returned tt
      (displayed img
         (InfoString.loaded (currentIndex (state c)) (fileCount (dirManager c)) (entry_image e))
         c).
Proof.
  intros He. unfold displayImage, showGui, updateInfoString, displayed, frame_calls.
  slot_unfold.
  destruct (img_type img) eqn:Ht; cbn.
  - rewrite He; slot_run. repeat rewrite <- app_assoc. reflexivity.
  - rewrite He; slot_run. repeat rewrite <- app_assoc. reflexivity.
  - destruct (mwVisible c) eqn:Hv; cbn; rewrite He; slot_run;
      repeat rewrite <- app_assoc; rewrite ?Hv; reflexivity.
Qed.

Lemma preload_eval (index : Z) (c : Core) :
  preload index c = Returned tt (preloaded index c).
Proof.
  unfold preload, preloaded. slot_unfold.
  destruct (usePreloader c); cbn; [| reflexivity].
  destruct (checkRange (dirManager c) index); cbn; [| reflexivity].
  destruct (entries (cache c) !! fileNameAt (dirManager c) index); reflexivity.
Qed.

Arguments onLoadStarted : simpl never.
Arguments displayImage : simpl never.
Arguments updateInfoString : simpl never.
Arguments preload : simpl never.
Arguments trimmed : simpl never.

Ltac enter_current :=
  slot_unfold; cbn;
  rewrite onLoadStarted_eval; cbn;
  unfold entered, go; cbn;
  match goal with
  | |- context [entries (trimmed ?c) !! ?k] =>
      let He := fresh "He" in
      destruct (entries (trimmed c) !! k) as [?e|] eqn:He; cbn;
      [ rewrite ?He; cbn; erewrite displayImage_eval by exact He | ]
  end.

Lemma loadByIndex_inside (index : Z) (c : Core) :
  0 <= index < fileCount (dirManager c) ->
  loadByIndex index c = Returned true (entered (go index c)).
Proof.
  intros [Hlo Hhi]. unfold loadByIndex. slot_unfold.
  apply Z.leb_le in Hlo. apply Z.ltb_lt in Hhi. rewrite Hlo, Hhi. cbn.
  enter_current; reflexivity.
Qed.

Lemma loadByIndex_outside (index : Z) (c : Core) :
  ~ 0 <= index < fileCount (dirManager c) ->
  loadByIndex index c = Returned false c.
Proof.
  intros Hout. unfold loadByIndex. slot_unfold.
  destruct (Z.leb_spec 0 index), (Z.ltb_spec index (fileCount (dirManager c)));
    cbn; try reflexivity; lia.
Qed.

Lemma loadByIndexBlocking_inside (index : Z) (c : Core) :
  0 <= index < fileCount (dirManager c) ->
  loadByIndexBlocking index c = Returned true (entered (go index c)).
Proof.
  intros [Hlo Hhi]. unfold loadByIndexBlocking. slot_unfold.
  apply Z.leb_le in Hlo. apply Z.ltb_lt in Hhi. rewrite Hlo, Hhi. cbn.
  enter_current; reflexivity.
Qed.

Lemma loadByIndexBlocking_outside (index : Z) (c : Core) :
  ~ 0 <= index < fileCount (dirManager c) ->
  loadByIndexBlocking index c = Returned false c.
Proof.
  intros Hout. unfold loadByIndexBlocking. slot_unfold.
  destruct (Z.leb_spec 0 index), (Z.ltb_spec index (fileCount (dirManager c)));
    cbn; try reflexivity; lia.
Qed.

Lemma slotNextImage_eval (c : Core) :
  hasImages (dirManager c) = true ->
  slotNextImage c
  = Returned tt
      match next_index c with
      | Some index => preloaded (index + 1) (entered (go index c))
      | None => with_effects (effects c ++ [ShowMessageDirectoryEnd]) c
      end.
Proof.
  intros Himg. unfold slotNextImage, next_index. slot_unfold. rewrite Himg.
  destruct (fileCount (dirManager c) <=? currentIndex (state c) + 1).
  - destruct (infiniteScrolling c); [| reflexivity].
    enter_current; rewrite preload_eval; reflexivity.
  - enter_current; rewrite preload_eval; reflexivity.
Qed.

Lemma slotPrevImage_eval (c : Core) :
  hasImages (dirManager c) = true ->
  slotPrevImage c
  = Returned tt
      match prev_index c with
      | Some index => preloaded (index - 1) (entered (go index c))
      | None => with_effects (effects c ++ [ShowMessageDirectoryStart]) c
      end.
Proof.
  intros Himg. unfold slotPrevImage, prev_index. slot_unfold. rewrite Himg.
  destruct (currentIndex (state c) - 1 <? 0).
  - destruct (infiniteScrolling c); [| reflexivity].
    enter_current; rewrite preload_eval; reflexivity.
  - enter_current; rewrite preload_eval; reflexivity.
Qed.

(** Entering an index keeps the index and the listing, leaves the cache
    trimmed, and only adds calls, none of them to the blocking loader. *)
Lemma entered_state (c : Core) :
  currentIndex (state (entered c)) = currentIndex (state c).
Proof.
  unfold entered. cbn.
  destruct (entries (trimmed c) !! _); reflexivity.
Qed.

Lemma entered_cache (c : Core) : cache (entered c) = trimmed c.
Proof.
  unfold entered. cbn.
  destruct (entries (trimmed c) !! _); reflexivity.
Qed.

Lemma entered_dirManager (c : Core) : dirManager (entered c) = dirManager c.
Proof.
  unfold entered. cbn.
  destruct (entries (trimmed c) !! _); reflexivity.
Qed.

Lemma preloaded_state (index : Z) (c : Core) : state (preloaded index c) = state c.
Proof. unfold preloaded. destruct (_ && _); reflexivity. Qed.

Lemma preloaded_cache (index : Z) (c : Core) : cache (preloaded index c) = cache c.
Proof. unfold preloaded. destruct (_ && _); reflexivity. Qed.

Lemma preloaded_dirManager (index : Z) (c : Core) :
  dirManager (preloaded index c) = dirManager c.
Proof. unfold preloaded. destruct (_ && _); reflexivity. Qed.

Lemma frame_calls_not_blocking (img : Image) (visible : bool) :
  forallb (fun e => negb (is_LoadBlocking e)) (frame_calls img visible) = true.
Proof.
  unfold frame_calls. destruct (img_type img), visible; reflexivity.
Qed.

Lemma entered_effects (c : Core) :
  exists new, effects (entered c) = (effects c ++ new)%list
              /\ forallb (fun e => negb (is_LoadBlocking e)) new = true.
Proof.
  unfold entered. cbn.
  destruct (entries (trimmed c) !! _) as [e|]; cbn.
  - eexists. split.
    + rewrite <- app_assoc. reflexivity.
    + cbn. rewrite forallb_app, frame_calls_not_blocking. reflexivity.
  - eexists. split.
    + rewrite <- app_assoc. reflexivity.
    + reflexivity.
Qed.

(** * Loading by index *)

(** C10.  [loadByIndexBlocking] is [loadByIndex]: on every index and every
    state of the object the two compute the same outcome.  Outside
    [0, fileCount) that outcome is [false] on the untouched object.  Inside it
    is [true] on the object entered at the index: the index is stored, the
    load is announced and the cache trimmed, and the image is displayed from
    the cache or requested with [loadExclusive]; the calls added on the way
    do not include [loadBlocking]. *)
Theorem loadByIndexBlocking_same_as_loadByIndex (index : Z) (c : Core) :
  loadByIndexBlocking index c = loadByIndex index c
  /\ ((0 <= index < fileCount (dirManager c)
       /\ loadByIndexBlocking index c = Returned true (entered (go index c))
       /\ currentIndex (state (entered (go index c))) = index
       /\ exists new,
            effects (entered (go index c)) = (effects c ++ new)%list
            /\ forallb (fun e => negb (is_LoadBlocking e)) new = true)
      \/ (~ 0 <= index < fileCount (dirManager c)
          /\ loadByIndexBlocking index c = Returned false c)).
Proof.
  destruct (decide (0 <= index < fileCount (dirManager c))) as [Hin | Hout].
  - split.
    + rewrite loadByIndexBlocking_inside, loadByIndex_inside by exact Hin. reflexivity.
    + left. split; [exact Hin |].
      split; [apply loadByIndexBlocking_inside, Hin |].
      split; [apply entered_state |].
      apply (entered_effects (go index c)).
  - split.
    + rewrite loadByIndexBlocking_outside, loadByIndex_outside by exact Hout. reflexivity.
    + right. split; [exact Hout | apply loadByIndexBlocking_outside, Hout].
Qed.

(** * The end of the listing *)

(** C4.  Three files, the last one current.  Without infinite scrolling
    the next-image slot only tells the window that the end is reached: the
    object is otherwise as before, so the index is still 2 and nothing was
    asked of the loader.  With infinite scrolling it returns with index 0. *)
Theorem slotNextImage_at_last_of_three (c : Core) :
  fileCount (dirManager c) = 3 ->
  hasImages (dirManager c) = true ->
  currentIndex (state c) = 2 ->
  (infiniteScrolling c = false ->
     slotNextImage c = Returned tt (with_effects (effects c ++ [ShowMessageDirectoryEnd]) c)
     /\ currentIndex (state (with_effects (effects c ++ [ShowMessageDirectoryEnd]) c)) = 2)
  /\ (infiniteScrolling c = true ->
        exists c', slotNextImage c = Returned tt c' /\ currentIndex (state c') = 0).
Proof.
  intros Hcount Himg Hcur. split; intros Hinf.
  - rewrite slotNextImage_eval by exact Himg.
    unfold next_index. rewrite Hcount, Hcur, Hinf. cbn. auto.
  - exists (preloaded (0 + 1) (entered (go 0 c))). split.
    + rewrite slotNextImage_eval by exact Himg.
      unfold next_index. rewrite Hcount, Hcur, Hinf. reflexivity.
    + rewrite preloaded_state, entered_state. reflexivity.
Qed.

Lemma slotNextImage_at_last_of_three_witness :
  (slotNextImage (Sample.core 2 true false false (Sample.cached []))
   = Returned tt (with_effects [ShowMessageDirectoryEnd]
                    (Sample.core 2 true false false (Sample.cached []))))
  /\ (exists c', slotNextImage (Sample.core 2 true false true (Sample.cached []))
                 = Returned tt c' /\ currentIndex (state c') = 0).
Proof.
  split.
  - apply (slotNextImage_at_last_of_three
             (Sample.core 2 true false false (Sample.cached [])));
      reflexivity.
  - apply (slotNextImage_at_last_of_three
             (Sample.core 2 true false true (Sample.cached [])));
      reflexivity.
Defined.

(** * Edits *)

(** Reserving and then releasing an entry puts the cache back. *)
Lemma reserve_present (k : string) (c : Cache) (e : CacheEntry) :
  entries c !! k = Some e ->
  CacheOps.reserve k c
  = (true, CacheOps.with_entries
             (<[k := {| entry_image := entry_image e;
                        entry_reserved := S (entry_reserved e) |}]> (entries c)) c).
Proof. intros He. unfold CacheOps.reserve. rewrite He. reflexivity. Qed.

Lemma reserve_absent (k : string) (c : Cache) :
  entries c !! k = None -> CacheOps.reserve k c = (false, c).
Proof. intros He. unfold CacheOps.reserve. rewrite He. reflexivity. Qed.

Lemma release_reserved (k : string) (c : Cache) (e : CacheEntry) :
  entries c !! k = Some e ->
  CacheOps.release k
    (CacheOps.with_entries
       (<[k := {| entry_image := entry_image e;
                  entry_reserved := S (entry_reserved e) |}]> (entries c)) c)
  = c.
Proof.
  intros He. unfold CacheOps.release, CacheOps.with_entries. cbn.
  rewrite lookup_insert_eq. cbn.
  rewrite insert_insert_eq.
  destruct c as [m l], e as [i n]; cbn in *.
  f_equal. apply insert_id. exact He.
Qed.

Lemma release_reserve (k : string) (c : Cache) (e : CacheEntry) :
  entries c !! k = Some e ->
  CacheOps.release k (CacheOps.reserve k c).2 = c.
Proof.
  intros He. rewrite (reserve_present k c e He). apply release_reserved, He.
Qed.

(** C7.  With the image at the current index cached and not of the static
    kind, [resize] and [rotateByDegrees] return after one call,
    [showMessage("Editing gifs/video is unsupported.")]; the navigation
    state, the entries of the cache with their images and reservation
    counts, and everything else in the object are as before, and the cache
    is unlocked. *)
Theorem edit_of_non_static_changes_nothing
    (size : QSize) (degrees : Z) (c : Core) (e : CacheEntry) :
  0 <= currentIndex (state c) ->
  entries (cache c) !! fileNameAt (dirManager c) (currentIndex (state c)) = Some e ->
  img_type (entry_image e) <> STATIC ->
  let c' := with_effects (effects c ++ [ShowMessage "Editing gifs/video is unsupported."])
              (with_cache {| entries := entries (cache c); locked := false |} c) in
  resize size c = Returned tt c'
  /\ rotateByDegrees degrees c = Returned tt c'
  /\ state c' = state c
  /\ entries (cache c') = entries (cache c)
  /\ locked (cache c') = false.
Proof.
  intros Hk He Hkind c'.
  assert (Hns : ImageType_eqb (img_type (entry_image e)) STATIC = false)
    by (destruct (img_type (entry_image e)); [congruence | reflexivity | reflexivity]).
  apply Z.leb_le in Hk.
  repeat split.
  - unfold resize. slot_unfold. rewrite Hk. cbn.
    rewrite (reserve_present _ (CacheOps.lock (cache c)) e) by exact He. cbn.
    rewrite lookup_insert_eq. cbn. rewrite Hns. slot_run.
    rewrite (release_reserved _ (CacheOps.lock (cache c)) e) by exact He.
    reflexivity.
  - unfold rotateByDegrees. slot_unfold. rewrite Hk. cbn.
    rewrite (reserve_present _ (CacheOps.lock (cache c)) e) by exact He. cbn.
    rewrite lookup_insert_eq. cbn. rewrite Hns. slot_run.
    rewrite (release_reserved _ (CacheOps.lock (cache c)) e) by exact He.
    reflexivity.
Qed.

Lemma edit_of_non_static_changes_nothing_witness :
  let c := Sample.core 1 true false false
             (Sample.cached [("b.gif", Sample.picture "b.gif" ANIMATED)]) in
  resize {| qs_width := 4; qs_height := 3 |} c
  = Returned tt (with_effects [ShowMessage "Editing gifs/video is unsupported."] c)
  /\ rotateByDegrees 90 c
     = Returned tt (with_effects [ShowMessage "Editing gifs/video is unsupported."] c).
Proof.
  intros c.
  destruct (edit_of_non_static_changes_nothing
              {| qs_width := 4; qs_height := 3 |} 90 c
              {| entry_image := Sample.picture "b.gif" ANIMATED; entry_reserved := 0 |})
    as (Hresize & Hrotate & _).
  - cbn. lia.
  - reflexivity.
  - cbn. discriminate.
  - split; [exact Hresize | exact Hrotate].
Defined.

(** C8, as the code has it.  When the key of the current index is not in
    the cache, [resize] and [rotateByDegrees] return after writing one line
    to the debug stream; the window is not told anything.  The cache is
    unlocked, and its entries, the navigation state and everything else in
    the object are as before. *)
Theorem edit_without_entry_logs_and_unlocks (size : QSize) (degrees : Z) (c : Core) :
  0 <= currentIndex (state c) ->
  entries (cache c) !! fileNameAt (dirManager c) (currentIndex (state c)) = None ->
  let c' := with_cache {| entries := entries (cache c); locked := false |} c in
  resize size c
  = Returned tt
      (with_effects (effects c ++ [QDebug "Core::resize() - could not lock cache object."]) c')
  /\ rotateByDegrees degrees c
     = Returned tt
         (with_effects
            (effects c ++ [QDebug "Core::rotateByDegrees() - could not lock cache object."]) c')
  /\ state c' = state c
  /\ entries (cache c') = entries (cache c)
  /\ locked (cache c') = false.
Proof.
  intros Hk He c'. apply Z.leb_le in Hk.
  repeat split.
  - unfold resize. slot_unfold. rewrite Hk. cbn.
    rewrite (reserve_absent _ (CacheOps.lock (cache c))) by exact He.
    reflexivity.
  - unfold rotateByDegrees. slot_unfold. rewrite Hk. cbn.
    rewrite (reserve_absent _ (CacheOps.lock (cache c))) by exact He.
    reflexivity.
Qed.

Lemma edit_without_entry_logs_and_unlocks_witness :
  let c := Sample.core 0 true false false (Sample.cached []) in
  resize {| qs_width := 4; qs_height := 3 |} c
  = Returned tt (with_effects [QDebug "Core::resize() - could not lock cache object."] c)
  /\ rotateByDegrees 90 c
     = Returned tt
         (with_effects [QDebug "Core::rotateByDegrees() - could not lock cache object."] c).
Proof.
  intros c.
  destruct (edit_without_entry_logs_and_unlocks {| qs_width := 4; qs_height := 3 |} 90 c)
    as (Hresize & Hrotate & _).
  - cbn. lia.
  - reflexivity.
  - split; [exact Hresize | exact Hrotate].
Defined.

(** C8, as the claim has it, fails: after a failed reservation no message
    reaches the window. *)
Lemma edit_without_entry_shows_no_message :
  ~ (forall (size : QSize) (c : Core),
       0 <= currentIndex (state c) ->
       entries (cache c) !! fileNameAt (dirManager c) (currentIndex (state c)) = None ->
       exists c' text, resize size c = Returned tt c'
                       /\ In (ShowMessage text) (effects c')).
Proof.
  intros H.
  destruct (H {| qs_width := 4; qs_height := 3 |}
              (Sample.core 0 true false false (Sample.cached [])))
    as (c' & text & Hrun & Hin).
  - cbn. lia.
  - reflexivity.
  - vm_compute in Hrun. injection Hrun as <-.
    cbn in Hin. destruct Hin as [Hin | []]. discriminate Hin.
Qed.

(** * Load completion *)

Lemma onLoadFinished_eval (img : Image) (c : Core) :
  let dm := dirManager c in
  let k := currentIndex (state c) in
  let index := indexOf dm (img_name img) in
  onLoadFinished (Some img) c
  = if (index <? k - 1) || (k + 1 <? index) then Returned tt (dropped img c)
    else match entries (cache c) !! fileNameAt dm index with
         | Some e =>
             if index =? k then displayImage (Some (entry_image e)) (dropped img c)
             else Returned tt (dropped img c)
         | None =>
             if index =? k then displayImage (Some img) (inserted img c)
             else Returned tt (inserted img c)
         end.
Proof.
  cbv zeta. unfold onLoadFinished, inserted, dropped. slot_unfold.
  unfold CacheOps.insert. cbn.
  generalize (currentIndex (state c)) as k.
  generalize (indexOf (dirManager c) (img_name img)) as index.
  intros index k.
  destruct (Z.ltb_spec index (k - 1)) as [Hlo | Hlo]; cbn.
  { destruct (Z.eqb_spec index k); [lia | reflexivity]. }
  destruct (Z.ltb_spec (k + 1) index) as [Hhi | Hhi]; cbn.
  { destruct (Z.eqb_spec index k); [lia | reflexivity]. }
  destruct (entries (cache c) !! fileNameAt (dirManager c) index) as [e|] eqn:He; cbn.
  - rewrite He. cbn. destruct (index =? k); reflexivity.
  - destruct (index =? k); reflexivity.
Qed.

(** C2.  A finished load of an image named [n], with [index] the position
    of [n] in the listing.  Outside the window around the current index the
    image is deleted and nothing else happens.  Inside the window the image
    is inserted under the name at [index]: when the key is taken the insert
    fails, the image is deleted and the cached one is looked up; when the key
    is free the image is now the cached one.  When [index] is the current
    index the image so resolved is displayed: the object ends up not waiting
    for the loader and with an active image. *)
Theorem onLoadFinished_resolves (img : Image) (c : Core) :
  let dm := dirManager c in
  let k := currentIndex (state c) in
  let index := indexOf dm (img_name img) in
  let nameKey := fileNameAt dm index in
  (index < k - 1 \/ k + 1 < index ->
     onLoadFinished (Some img) c = Returned tt (dropped img c))
  /\ (k - 1 <= index <= k + 1 ->
      forall e, entries (cache c) !! nameKey = Some e ->
        (CacheOps.insert nameKey img (cache c)).1 = false
        /\ CacheOps.get nameKey (cache (dropped img c)) = Some (entry_image e)
        /\ (index <> k -> onLoadFinished (Some img) c = Returned tt (dropped img c))
        /\ (index = k ->
            onLoadFinished (Some img) c
            = Returned tt
                (displayed (entry_image e)
                   (InfoString.loaded k (fileCount dm) (entry_image e))
                   (dropped img c))))
  /\ (k - 1 <= index <= k + 1 ->
      entries (cache c) !! nameKey = None ->
        (CacheOps.insert nameKey img (cache c)).1 = true
        /\ CacheOps.get nameKey (cache (inserted img c)) = Some img
        /\ (index <> k -> onLoadFinished (Some img) c = Returned tt (inserted img c))
        /\ (index = k ->
            onLoadFinished (Some img) c
            = Returned tt
                (displayed img (InfoString.loaded k (fileCount dm) img) (inserted img c))))
  /\ (index = k ->
      exists resolved c',
        onLoadFinished (Some img) c = Returned tt c'
        /\ CacheOps.get nameKey (cache c') = Some resolved
        /\ isWaitingForLoader (state c') = false
        /\ hasActiveImage (state c') = true
        /\ displayingFileName (state c') = img_name resolved
        /\ exists before after,
             effects c' = (before ++ frame_calls resolved (mwVisible c) ++ after)%list).
Proof.
  intros dm k index nameKey.
  pose proof (onLoadFinished_eval img c) as Heval. cbn zeta in Heval.
  fold dm k index nameKey in Heval.
  assert (Htaken : forall e, entries (cache c) !! nameKey = Some e -> index = k ->
            displayImage (Some (entry_image e)) (dropped img c)
            = Returned tt (displayed (entry_image e)
                             (InfoString.loaded k (fileCount dm) (entry_image e))
                             (dropped img c))).
  { intros e He Hk. apply displayImage_eval. cbn. fold dm k. rewrite <- Hk. exact He. }
  assert (Hfree : entries (cache c) !! nameKey = None -> index = k ->
            displayImage (Some img) (inserted img c)
            = Returned tt (displayed img (InfoString.loaded k (fileCount dm) img)
                             (inserted img c))).
  { intros He Hk.
    apply (displayImage_eval img (inserted img c)
             {| entry_image := img; entry_reserved := 0 |}).
    unfold inserted, CacheOps.insert. cbn. fold dm k index nameKey. rewrite He. cbn.
    rewrite <- Hk. fold nameKey. apply lookup_insert_eq. }
  assert (Hwin : k - 1 <= index <= k + 1 ->
            (index <? k - 1) || (k + 1 <? index) = false).
  { intros [Hlo Hhi]. apply orb_false_iff. split; apply Z.ltb_ge; lia. }
  split; [| split; [| split]].
  - intros Hout. rewrite Heval.
    assert ((index <? k - 1) || (k + 1 <? index) = true) as ->; [| reflexivity].
    apply orb_true_iff. destruct Hout; [left | right]; apply Z.ltb_lt; lia.
  - intros Hin e He. rewrite Heval, (Hwin Hin), He.
    split; [unfold CacheOps.insert; rewrite He; reflexivity |].
    split; [unfold CacheOps.get; cbn; rewrite He; reflexivity |].
    split; intros Hk.
    + apply Z.eqb_neq in Hk. rewrite Hk. reflexivity.
    + rewrite (proj2 (Z.eqb_eq _ _) Hk). apply Htaken; assumption.
  - intros Hin He. rewrite Heval, (Hwin Hin), He.
    split; [unfold CacheOps.insert; rewrite He; reflexivity |].
    split.
    { unfold CacheOps.get, inserted, CacheOps.insert. cbn. fold dm k index nameKey.
      rewrite He. cbn. rewrite lookup_insert_eq. reflexivity. }
    split; intros Hk.
    + apply Z.eqb_neq in Hk. rewrite Hk. reflexivity.
    + rewrite (proj2 (Z.eqb_eq _ _) Hk). apply Hfree; assumption.
  - intros Hk. rewrite Heval, Hwin by lia. rewrite (proj2 (Z.eqb_eq _ _) Hk).
    destruct (entries (cache c) !! nameKey) as [e|] eqn:He.
    + exists (entry_image e), (displayed (entry_image e)
                (InfoString.loaded k (fileCount dm) (entry_image e)) (dropped img c)).
      split; [apply Htaken; [reflexivity | exact Hk] |].
      split; [unfold CacheOps.get; cbn; rewrite He; reflexivity |].
      repeat (split; [reflexivity |]).
      exists (effects c ++ [DeleteImage img; TimerStop])%list. eexists. cbn.
      repeat rewrite <- app_assoc. reflexivity.
    + exists img, (displayed img (InfoString.loaded k (fileCount dm) img) (inserted img c)).
      split; [apply Hfree; [reflexivity | exact Hk] |].
      split.
      { unfold CacheOps.get, inserted, CacheOps.insert. cbn. fold dm k index nameKey.
        rewrite He. cbn. rewrite lookup_insert_eq. reflexivity. }
      repeat (split; [reflexivity |]).
      exists (effects c ++ [TimerStop])%list. eexists. cbn.
      repeat rewrite <- app_assoc. reflexivity.
Qed.

Lemma onLoadFinished_resolves_witness :
  let a := Sample.picture "a.png" STATIC in
  let b := Sample.picture "b.gif" ANIMATED in
  let late := Sample.picture "c.png" STATIC in
  let again :=
    {| img_name := "a.png"; img_type := STATIC; img_width := 11; img_height := 22;
       img_fileSize := 6; img_decoded := Decoded "/d/a.png"; img_edited := None |} in
  let empty := Sample.core 0 false true false (Sample.cached []) in
  let holding := Sample.core 0 false true false (Sample.cached [("a.png", a)]) in
  onLoadFinished (Some late) empty = Returned tt (with_effects [DeleteImage late] empty)
  /\ onLoadFinished (Some again) holding
     = Returned tt
         (displayed a "[ 1 / 3 ]   a.png  (10 x 20  5 KB)"
            (with_effects [DeleteImage again] holding))
  /\ onLoadFinished (Some b) empty
     = Returned tt (with_cache (Sample.cached [("b.gif", b)]) empty).
Proof.
  intros a b late again empty holding.
  split; [| split].
  - pose proof (onLoadFinished_resolves late empty) as H. cbv zeta in H.
    apply (proj1 H). right. vm_compute. reflexivity.
  - pose proof (onLoadFinished_resolves again holding) as H. cbv zeta in H.
    destruct H as (_ & H & _).
    destruct (H ltac:(vm_compute; split; discriminate)
                {| entry_image := a; entry_reserved := 0 |} eq_refl)
      as (_ & _ & _ & Hshow).
    apply Hshow. reflexivity.
  - pose proof (onLoadFinished_resolves b empty) as H. cbv zeta in H.
    destruct H as (_ & _ & H & _).
    destruct (H ltac:(vm_compute; split; discriminate) eq_refl)
      as (_ & _ & Hkeep & _).
    apply Hkeep. vm_compute. discriminate.
Defined.

(** * Decode failure *)

Lemma frame_calls_no_message (img : Image) (visible : bool) :
  forallb (fun e => negb (is_ShowMessage e)) (frame_calls img visible) = true.
Proof.
  unfold frame_calls. destruct (img_type img), visible; reflexivity.
Qed.

(** C6.  A failed decode reaches the object as a finished load on a null
    image.  There the slot faults, in every state, before anything is shown:
    it does not return, so no message is produced and the process does not
    carry on.  On an image that is not null the slot returns, and none of the
    calls it adds is a message.  The message that [displayImage] has for a
    null image is therefore never shown for a finished load. *)
Theorem decode_failure_faults_and_shows_no_message (c : Core) :
  onLoadFinished None c = Crashed NullDereference
  /\ (forall c', onLoadFinished None c <> Returned tt c')
  /\ forall img,
       exists c' new,
         onLoadFinished (Some img) c = Returned tt c'
         /\ effects c' = (effects c ++ new)%list
         /\ forallb (fun e => negb (is_ShowMessage e)) new = true.
Proof.
  split; [reflexivity |]. split; [intros c'; discriminate |].
  intros img.
  pose proof (onLoadFinished_eval img c) as Heval. cbv zeta in Heval.
  set (k := currentIndex (state c)) in *.
  set (index := indexOf (dirManager c) (img_name img)) in *.
  destruct ((index <? k - 1) || (k + 1 <? index)).
  { exists (dropped img c), [DeleteImage img]. split; [exact Heval |]. split; reflexivity. }
  destruct (entries (cache c) !! fileNameAt (dirManager c) index) as [e|] eqn:He.
  - destruct (Z.eqb_spec index k) as [Hk | Hk].
    + rewrite (displayImage_eval (entry_image e) (dropped img c) e) in Heval
        by (cbn; fold k; rewrite <- Hk; exact He).
      eexists. eexists. split; [exact Heval |]. split.
      * cbn. repeat rewrite <- app_assoc. reflexivity.
      * cbn. rewrite forallb_app, frame_calls_no_message. reflexivity.
    + exists (dropped img c), [DeleteImage img]. split; [exact Heval |]. split; reflexivity.
  - assert (Hins : entries (cache (inserted img c))
                   = <[fileNameAt (dirManager c) index :=
                         {| entry_image := img; entry_reserved := 0 |}]> (entries (cache c))).
    { unfold inserted, CacheOps.insert. cbn. fold index. rewrite He. reflexivity. }
    destruct (Z.eqb_spec index k) as [Hk | Hk].
    + rewrite (displayImage_eval img (inserted img c)
                 {| entry_image := img; entry_reserved := 0 |}) in Heval.
      * eexists. eexists. split; [exact Heval |]. split.
        -- cbn. reflexivity.
        -- cbn. rewrite forallb_app, frame_calls_no_message. reflexivity.
      * rewrite Hins. cbn. fold k. rewrite <- Hk. apply lookup_insert_eq.
    + exists (inserted img c), []. split; [exact Heval |]. split.
      * cbn. rewrite app_nil_r. reflexivity.
      * reflexivity.
Qed.

(** * The window of the cache *)

Lemma trimmed_in_window (c : Core) (key : string) (e : CacheEntry) :
  entries (trimmed c) !! key = Some e ->
  key ∈ window (dirManager c) (currentIndex (state c)) \/ (0 < entry_reserved e)%nat.
Proof.
  unfold trimmed. cbn. intros Hkey.
  apply map_lookup_filter_Some in Hkey as [_ Hkept]. cbn in Hkept.
  unfold CacheOps.kept in Hkept. apply orb_true_iff in Hkept as [Hin | Hpinned].
  - left. apply bool_decide_eq_true in Hin. exact Hin.
  - right. destruct (entry_reserved e); [discriminate | lia].
Qed.

Lemma jumpToFirst_eval (c : Core) :
  hasImages (dirManager c) = true ->
  0 < fileCount (dirManager c) ->
  jumpToFirst c
  = Returned tt (with_effects (effects (entered (go 0 c)) ++ [ShowMessageDirectoryStart])
                   (entered (go 0 c))).
Proof.
  intros Himg Hsome. unfold jumpToFirst. slot_unfold. rewrite Himg.
  rewrite loadByIndex_inside by lia. reflexivity.
Qed.

Lemma jumpToLast_eval (c : Core) :
  hasImages (dirManager c) = true ->
  0 < fileCount (dirManager c) ->
  jumpToLast c
  = Returned tt
      (with_effects (effects (entered (go (fileCount (dirManager c) - 1) c))
                       ++ [ShowMessageDirectoryEnd])
         (entered (go (fileCount (dirManager c) - 1) c))).
Proof.
  intros Himg Hsome. unfold jumpToLast. slot_unfold. rewrite Himg.
  rewrite loadByIndex_inside by lia. reflexivity.
Qed.

Lemma navigate_enters (n : Navigation) (c : Core) (k : Z) :
  destination n c = Some k ->
  exists c', navigate n c = Returned tt c'
             /\ state c' = state (entered (go k c))
             /\ cache c' = trimmed (go k c)
             /\ dirManager c' = dirManager c.
Proof.
  destruct n; intros Hdest; unfold navigate; unfold destination in Hdest.
  - destruct (hasImages (dirManager c)) eqn:Himg; [| discriminate].
    rewrite slotNextImage_eval, Hdest by exact Himg.
    eexists. split; [reflexivity |].
    rewrite preloaded_state, preloaded_cache, preloaded_dirManager,
      entered_cache, entered_dirManager. auto.
  - destruct (hasImages (dirManager c)) eqn:Himg; [| discriminate].
    rewrite slotPrevImage_eval, Hdest by exact Himg.
    eexists. split; [reflexivity |].
    rewrite preloaded_state, preloaded_cache, preloaded_dirManager,
      entered_cache, entered_dirManager. auto.
  - destruct (Z.leb_spec 0 index), (Z.ltb_spec index (fileCount (dirManager c)));
      cbn in Hdest; try discriminate. injection Hdest as <-.
    unfold bind. rewrite loadByIndex_inside by lia.
    eexists. split; [reflexivity |].
    rewrite entered_cache, entered_dirManager. auto.
  - destruct (Z.leb_spec 0 index), (Z.ltb_spec index (fileCount (dirManager c)));
      cbn in Hdest; try discriminate. injection Hdest as <-.
    unfold bind. rewrite loadByIndexBlocking_inside by lia.
    eexists. split; [reflexivity |].
    rewrite entered_cache, entered_dirManager. auto.
  - destruct (hasImages (dirManager c)) eqn:Himg; [| discriminate].
    destruct (Z.ltb_spec 0 (fileCount (dirManager c))); [| discriminate].
    cbn in Hdest. injection Hdest as <-.
    rewrite jumpToFirst_eval by assumption.
    eexists. split; [reflexivity |]. cbn.
    rewrite entered_cache, entered_dirManager. auto.
  - destruct (hasImages (dirManager c)) eqn:Himg; [| discriminate].
    destruct (Z.ltb_spec 0 (fileCount (dirManager c))); [| discriminate].
    cbn in Hdest. injection Hdest as <-.
    rewrite jumpToLast_eval by assumption.
    eexists. split; [reflexivity |]. cbn.
    rewrite entered_cache, entered_dirManager. auto.
Qed.

(** C5, as the code has it.  A navigation that is carried out to index [k]
    returns with [k] current, and every entry then in the cache is either
    reserved or filed under one of the three names the listing gives for
    [k-1], [k] and [k+1], whether or not those positions are in range. *)
Theorem navigation_trims_to_window (n : Navigation) (c : Core) (k : Z) :
  destination n c = Some k ->
  exists c',
    navigate n c = Returned tt c'
    /\ currentIndex (state c') = k
    /\ forall key e,
         entries (cache c') !! key = Some e ->
         key ∈ [fileNameAt (dirManager c') (k - 1);
                fileNameAt (dirManager c') k;
                fileNameAt (dirManager c') (k + 1)]
         \/ (0 < entry_reserved e)%nat.
Proof.
  intros Hdest.
  destruct (navigate_enters n c k Hdest) as (c' & Hrun & Hstate & Hcache & Hdm).
  exists c'. split; [exact Hrun |]. split.
  - rewrite Hstate, entered_state. reflexivity.
  - intros key e Hkey. rewrite Hcache in Hkey. rewrite Hdm.
    apply trimmed_in_window in Hkey. exact Hkey.
Qed.

Lemma navigation_trims_to_window_witness :
  exists c',
    navigate (ToIndex 0) Ghost.delivered = Returned tt c'
    /\ currentIndex (state c') = 0
    /\ forall key e,
         entries (cache c') !! key = Some e ->
         key ∈ [fileNameAt (dirManager c') (0 - 1);
                fileNameAt (dirManager c') 0;
                fileNameAt (dirManager c') (0 + 1)]
         \/ (0 < entry_reserved e)%nat.
Proof.
  apply (navigation_trims_to_window (ToIndex 0) Ghost.delivered 0).
  reflexivity.
Defined.

(** C5, as the claim has it, fails.  An image whose name is no longer
    listed is delivered while index 0 is current: its position is [-1],
    inside the window, and it is cached under the name the listing gives
    for [-1].  Opening index 0 again keeps that entry, unreserved, although
    its key is the name of no valid position. *)
Lemma window_of_valid_positions_fails :
  ~ (forall (n : Navigation) (c : Core) (k : Z) (c' : Core),
       destination n c = Some k ->
       navigate n c = Returned tt c' ->
       forall key e,
         entries (cache c') !! key = Some e ->
         key ∈ valid_window (dirManager c') k \/ (0 < entry_reserved e)%nat).
Proof.
  intros H.
  assert (Hrun : navigate (ToIndex 0) Ghost.delivered = Returned tt Ghost.reopened)
    by (vm_compute; reflexivity).
  assert (Hkey : entries (cache Ghost.reopened) !! ""
                 = Some {| entry_image := Ghost.image; entry_reserved := 0 |})
    by (vm_compute; reflexivity).
  destruct (H (ToIndex 0) Ghost.delivered 0 Ghost.reopened eq_refl Hrun _ _ Hkey)
    as [Hin | Hpinned].
  - vm_compute in Hin.
    repeat (apply elem_of_cons in Hin as [Hin | Hin]; [discriminate Hin |]).
    apply elem_of_nil in Hin. exact Hin.
  - cbn in Hpinned. lia.
Qed.

(** * The info string *)

Section QStringFacts.

Lemma append_assoc (a b d : string) : (a +:+ b) +:+ d = a +:+ (b +:+ d).
Proof.
  induction a as [| x a IH]; [reflexivity |].
  change (String x ((a +:+ b) +:+ d) = String x (a +:+ (b +:+ d))).
  f_equal. exact IH.
Qed.

Lemma substring_whole (s : string) : String.substring 0 (String.length s) s = s.
Proof. induction s as [| x s IH]; simpl; [reflexivity | f_equal; exact IH]. Qed.

(** [left(n)] of a string of at least [n] characters: its first [n]. *)
Lemma left_leading (n : nat) (s : string) :
  (n <= String.length s)%nat ->
  String.length (QString.left n s) = n
  /\ exists rest, s = QString.left n s +:+ rest.
Proof.
  unfold QString.left. revert s.
  induction n as [| n IH]; intros s Hlen.
  - destruct s; cbn; split; try reflexivity; eexists; reflexivity.
  - destruct s as [| x s]; cbn in *; [lia |].
    destruct (IH s ltac:(lia)) as (Hn & rest & Hrest).
    split; [rewrite Hn; reflexivity |].
    exists rest.
    change (String x s = String x (String.substring 0 n s +:+ rest)).
    f_equal. exact Hrest.
Qed.

Lemma substring_trailing (s : string) (a m : nat) :
  (a + m = String.length s)%nat ->
  String.length (String.substring a m s) = m
  /\ exists front, s = front +:+ String.substring a m s.
Proof.
  revert a m. induction s as [| x s IH]; intros a m Hlen.
  - cbn in Hlen.
    assert (a = 0%nat) as -> by lia. assert (m = 0%nat) as -> by lia.
    cbn. split; [reflexivity | exists ""; reflexivity].
  - destruct a as [| a].
    + rewrite Nat.add_0_l in Hlen. subst m. rewrite (substring_whole (String x s)).
      split; [reflexivity | exists ""; reflexivity].
    + cbn in Hlen. cbn. destruct (IH a m ltac:(lia)) as (Hm & front & Hfront).
      split; [exact Hm |].
      exists (String x front).
      change (String x s = String x (front +:+ String.substring a m s)).
      f_equal. exact Hfront.
Qed.

(** [right(n)] of a string of at least [n] characters: its last [n]. *)
Lemma right_trailing (n : nat) (s : string) :
  (n <= String.length s)%nat ->
  String.length (QString.right n s) = n
  /\ exists front, s = front +:+ QString.right n s.
Proof.
  intros Hlen. unfold QString.right. apply substring_trailing. lia.
Qed.

End QStringFacts.

Lemma loaded_flat (index count : Z) (img : Image) :
  InfoString.loaded index count img
  = "[ " +:+ QString.number (index + 1) +:+ " / " +:+ QString.number count +:+ " ]   " +:+
    InfoString.shown_name (img_name img) +:+ "  (" +:+
    QString.number (img_width img) +:+ " x " +:+ QString.number (img_height img) +:+
    "  " +:+ QString.number (img_fileSize img) +:+ " KB)".
Proof.
  unfold InfoString.loaded, InfoString.position, InfoString.details.
  repeat rewrite append_assoc. reflexivity.
Qed.

(** C9, as the code has it.  While the object waits for the loader the
    info string is the position alone, ["[ index / count ]   "] with the index
    counted from one.  Otherwise, with the image of the current index in the
    cache, the position is followed by the name, two spaces and
    ["(width x height  size KB)"]; a name of more than 95 characters is shown
    as its 95 leading characters, [" (...) "] and its 12 trailing characters,
    a name of at most 95 characters in full. *)
Theorem updateInfoString_format (c : Core) :
  let position :=
    "[ " +:+ QString.number (currentIndex (state c) + 1) +:+ " / " +:+
    QString.number (fileCount (dirManager c)) +:+ " ]   " in
  let told (text : string) :=
    Returned tt (with_effects (effects c ++ [SetInfoString text]) c) in
  (isWaitingForLoader (state c) = true -> updateInfoString c = told position)
  /\ forall e,
       isWaitingForLoader (state c) = false ->
       entries (cache c) !! fileNameAt (dirManager c) (currentIndex (state c)) = Some e ->
       let img := entry_image e in
       let rest :=
         "  (" +:+ QString.number (img_width img) +:+ " x " +:+
         QString.number (img_height img) +:+ "  " +:+
         QString.number (img_fileSize img) +:+ " KB)" in
       ((String.length (img_name img) <= 95)%nat ->
          updateInfoString c = told (position +:+ img_name img +:+ rest))
       /\ ((95 < String.length (img_name img))%nat ->
           exists leading trailing,
             String.length leading = 95%nat
             /\ (exists after, img_name img = leading +:+ after)
             /\ String.length trailing = 12%nat
             /\ (exists before, img_name img = before +:+ trailing)
             /\ updateInfoString c
                = told (position +:+ (leading +:+ " (...) " +:+ trailing) +:+ rest)).
Proof.
  intros position told. split.
  - intros Hw. rewrite updateInfoString_waiting by exact Hw. reflexivity.
  - intros e Hw He img rest.
    rewrite (updateInfoString_loaded c e Hw He), loaded_flat.
    fold img. unfold InfoString.shown_name, QString.size. split.
    + intros Hshort.
      destruct (Z.ltb_spec 95 (Z.of_nat (String.length (img_name img)))); [lia |].
      unfold told, position, rest. repeat rewrite append_assoc. reflexivity.
    + intros Hlong.
      destruct (Z.ltb_spec 95 (Z.of_nat (String.length (img_name img)))); [| lia].
      destruct (left_leading 95 (img_name img) ltac:(lia)) as (Hl & Hpre).
      destruct (right_trailing 12 (img_name img) ltac:(lia)) as (Hr & Hsuf).
      exists (QString.left 95 (img_name img)), (QString.right 12 (img_name img)).
      repeat (split; [assumption |]).
      unfold told, position, rest. repeat rewrite append_assoc. reflexivity.
Qed.

Example updateInfoString_long_name :
  updateInfoString LongName.core
  = Returned tt
      (with_effects
         [SetInfoString
            ("[ 1 / 1 ]   " +:+
             "01234567890123456789012345678901234567890123456789012345678901234567890123456789012345678901234" +:+
             " (...) " +:+ "23456789.png" +:+ "  (10 x 20  5 KB)")]
         LongName.core).
Proof. vm_compute. reflexivity. Qed.

Lemma updateInfoString_format_witness :
  let a := Sample.picture "a.png" STATIC in
  let waiting := Sample.core 0 false true false (Sample.cached [("a.png", a)]) in
  let showing := Sample.core 0 true false false (Sample.cached [("a.png", a)]) in
  updateInfoString waiting
  = Returned tt (with_effects [SetInfoString "[ 1 / 3 ]   "] waiting)
  /\ updateInfoString showing
     = Returned tt (with_effects [SetInfoString "[ 1 / 3 ]   a.png  (10 x 20  5 KB)"] showing)
  /\ exists leading trailing,
       String.length leading = 95%nat
       /\ (exists after, LongName.name = leading +:+ after)
       /\ String.length trailing = 12%nat
       /\ (exists before, LongName.name = before +:+ trailing)
       /\ updateInfoString LongName.core
          = Returned tt
              (with_effects
                 [SetInfoString
                    ("[ 1 / 1 ]   " +:+ (leading +:+ " (...) " +:+ trailing) +:+
                     "  (10 x 20  5 KB)")]
                 LongName.core).
Proof.
  intros a waiting showing. split; [| split].
  - pose proof (updateInfoString_format waiting) as H. cbv zeta in H.
    apply (proj1 H). reflexivity.
  - pose proof (updateInfoString_format showing) as H. cbv zeta in H.
    destruct H as [_ H].
    destruct (H {| entry_image := a; entry_reserved := 0 |} eq_refl eq_refl) as [Hshort _].
    apply Hshort. vm_compute. lia.
  - pose proof (updateInfoString_format LongName.core) as H. cbv zeta in H.
    destruct H as [_ H].
    destruct (H {| entry_image := LongName.image; entry_reserved := 0 |} eq_refl eq_refl)
      as [_ Hlong].
    apply Hlong. vm_compute. lia.
Defined.

(** C9, as the claim has it, fails.  While the object waits for the loader
    the info string carries no name at all; and the position is written with
    a space inside each bracket, three spaces after it, and a space before
    [KB]. *)
Lemma info_string_not_as_specified :
  ~ (forall (c c' : Core) (e : CacheEntry),
       entries (cache c) !! fileNameAt (dirManager c) (currentIndex (state c)) = Some e ->
       updateInfoString c = Returned tt c' ->
       exists name,
         effects c'
         = (effects c ++
            [SetInfoString
               (spec_infoString (currentIndex (state c) + 1) (fileCount (dirManager c)) name
                  (img_width (entry_image e)) (img_height (entry_image e))
                  (img_fileSize (entry_image e)))])%list).
Proof.
  intros H.
  pose (c := Sample.core 0 false true false
               (Sample.cached [("a.png", Sample.picture "a.png" STATIC)])).
  destruct (H c (with_effects [SetInfoString "[ 1 / 3 ]   "] c)
              {| entry_image := Sample.picture "a.png" STATIC; entry_reserved := 0 |}
              eq_refl eq_refl) as [name Hname].
  vm_compute in Hname. discriminate Hname.
Qed.

(** * Further properties of the slots *)

Lemma entered_infiniteScrolling (c : Core) :
  infiniteScrolling (entered c) = infiniteScrolling c.
Proof.
  unfold entered. cbn.
  destruct (entries (trimmed c) !! _); reflexivity.
Qed.

Lemma preloaded_infiniteScrolling (index : Z) (c : Core) :
  infiniteScrolling (preloaded index c) = infiniteScrolling c.
Proof. unfold preloaded. destruct (_ && _); reflexivity. Qed.

(** Trimming keeps what is filed under a name of the window, and never adds
    or changes an entry. *)
Lemma trimmed_keeps (c : Core) (key : string) :
  key ∈ window (dirManager c) (currentIndex (state c)) ->
  entries (trimmed c) !! key = entries (cache c) !! key.
Proof.
  intros Hin. unfold trimmed. cbn.
  destruct (entries (cache c) !! key) as [e|] eqn:He.
  - apply map_lookup_filter_Some. split; [exact He |]. cbn.
    unfold CacheOps.kept. apply orb_true_iff. left.
    apply bool_decide_eq_true. exact Hin.
  - apply map_lookup_filter_None. left. exact He.
Qed.

Lemma trimmed_from (c : Core) (key : string) (e : CacheEntry) :
  entries (trimmed c) !! key = Some e -> entries (cache c) !! key = Some e.
Proof.
  unfold trimmed. cbn. intros H. apply map_lookup_filter_Some in H. apply H.
Qed.

Lemma current_in_window (dm : DirectoryManager) (k : Z) :
  fileNameAt dm k ∈ window dm k.
Proof. unfold window. apply elem_of_cons. right. apply elem_of_cons. left. reflexivity. Qed.

Lemma near_in_window (dm : DirectoryManager) (k index : Z) :
  k - 1 <= index <= k + 1 -> fileNameAt dm index ∈ window dm k.
Proof.
  intros Hnear. unfold window.
  assert (index = k - 1 \/ index = k \/ index = k + 1) as [-> | [-> | ->]] by lia;
    repeat (first [ apply list_elem_of_here | apply list_elem_of_further ]).
Qed.

(** A navigation that is not carried out leaves the state, the cache and
    the listing alone. *)
Lemma navigate_stays (n : Navigation) (c : Core) :
  destination n c = None ->
  exists c', navigate n c = Returned tt c'
             /\ state c' = state c
             /\ cache c' = cache c
             /\ dirManager c' = dirManager c.
Proof.
  destruct n; intros Hdest; unfold navigate; unfold destination in Hdest.
  - destruct (hasImages (dirManager c)) eqn:Himg.
    + rewrite slotNextImage_eval, Hdest by exact Himg. eexists. split; [reflexivity |]. auto.
    + unfold slotNextImage. slot_unfold. rewrite Himg. eexists. split; [reflexivity |]. auto.
  - destruct (hasImages (dirManager c)) eqn:Himg.
    + rewrite slotPrevImage_eval, Hdest by exact Himg. eexists. split; [reflexivity |]. auto.
    + unfold slotPrevImage. slot_unfold. rewrite Himg. eexists. split; [reflexivity |]. auto.
  - unfold bind. rewrite loadByIndex_outside.
    + eexists. split; [reflexivity |]. auto.
    + intros [Hlo Hhi]. apply Z.leb_le in Hlo. apply Z.ltb_lt in Hhi.
      rewrite Hlo, Hhi in Hdest. discriminate.
  - unfold bind. rewrite loadByIndexBlocking_outside.
    + eexists. split; [reflexivity |]. auto.
    + intros [Hlo Hhi]. apply Z.leb_le in Hlo. apply Z.ltb_lt in Hhi.
      rewrite Hlo, Hhi in Hdest. discriminate.
  - unfold jumpToFirst. slot_unfold.
    destruct (hasImages (dirManager c)) eqn:Himg.
    + destruct (Z.ltb_spec 0 (fileCount (dirManager c))); [discriminate |].
      rewrite loadByIndex_outside by lia. eexists. split; [reflexivity |]. auto.
    + eexists. split; [reflexivity |]. auto.
  - unfold jumpToLast. slot_unfold.
    destruct (hasImages (dirManager c)) eqn:Himg.
    + destruct (Z.ltb_spec 0 (fileCount (dirManager c))); [discriminate |].
      rewrite loadByIndex_outside by lia. eexists. split; [reflexivity |]. auto.
    + eexists. split; [reflexivity |]. auto.
Qed.

Lemma destination_in_range (n : Navigation) (c : Core) (k : Z) :
  0 <= currentIndex (state c) < fileCount (dirManager c) ->
  destination n c = Some k ->
  0 <= k < fileCount (dirManager c).
Proof.
  intros Hin. destruct n; unfold destination, next_index, prev_index;
    repeat match goal with
           | |- context [if ?b then _ else _] => destruct b eqn:?
           end;
    intros Hk; try discriminate; injection Hk as <-;
    repeat match goal with
           | H : (_ <=? _) = true |- _ => apply Z.leb_le in H
           | H : (_ <=? _) = false |- _ => apply Z.leb_gt in H
           | H : (_ <? _) = true |- _ => apply Z.ltb_lt in H
           | H : (_ <? _) = false |- _ => apply Z.ltb_ge in H
           | H : _ && _ = true |- _ => apply andb_true_iff in H as [? ?]
           end; lia.
Qed.

(** The cache after a write through the reserved pointer and the release. *)
Lemma edit_written (k : string) (c : Cache) (e : CacheEntry) (img : Image) :
  CacheOps.unlock
    (CacheOps.release k
       (CacheOps.store k img
          (CacheOps.with_entries
             (<[k := {| entry_image := entry_image e;
                        entry_reserved := S (entry_reserved e) |}]> (entries c))
             (CacheOps.lock c))))
  = {| entries := <[k := {| entry_image := img; entry_reserved := entry_reserved e |}]>
                    (entries c);
       locked := false |}.
Proof.
  unfold CacheOps.store, CacheOps.with_entries. cbn. rewrite lookup_insert_eq. cbn.
  unfold CacheOps.release, CacheOps.with_entries. cbn. rewrite lookup_insert_eq. cbn.
  rewrite !insert_insert_eq. reflexivity.
Qed.

Lemma ImageType_eqb_eq (a b : ImageType) : ImageType_eqb a b = true <-> a = b.
Proof. destruct a, b; cbn; split; intros H; congruence. Qed.

Lemma resize_static (size : QSize) (c : Core) (e : CacheEntry) :
  0 <= currentIndex (state c) ->
  entries (cache c) !! fileNameAt (dirManager c) (currentIndex (state c)) = Some e ->
  img_type (entry_image e) = STATIC ->
  resize size c
  = Returned tt
      (retouched (fileNameAt (dirManager c) (currentIndex (state c))) e
         (ImageLib.scale (getImage (entry_image e)) size 1) c).
Proof.
  intros Hk He Hstatic. apply Z.leb_le in Hk.
  unfold resize. slot_unfold. rewrite Hk. cbn.
  rewrite (reserve_present _ (CacheOps.lock (cache c)) e) by exact He. cbn.
  rewrite lookup_insert_eq. cbn. rewrite Hstatic. cbn.
  rewrite edit_written. unfold retouched.
  erewrite displayImage_eval by (cbn; apply lookup_insert_eq).
  reflexivity.
Qed.

Lemma rotateByDegrees_static (degrees : Z) (c : Core) (e : CacheEntry) :
  0 <= currentIndex (state c) ->
  entries (cache c) !! fileNameAt (dirManager c) (currentIndex (state c)) = Some e ->
  img_type (entry_image e) = STATIC ->
  rotateByDegrees degrees c
  = Returned tt
      (retouched (fileNameAt (dirManager c) (currentIndex (state c))) e
         (ImageLib.rotate (getImage (entry_image e)) degrees) c).
Proof.
  intros Hk He Hstatic. apply Z.leb_le in Hk.
  unfold rotateByDegrees. slot_unfold. rewrite Hk. cbn.
  rewrite (reserve_present _ (CacheOps.lock (cache c)) e) by exact He. cbn.
  rewrite lookup_insert_eq. cbn. rewrite Hstatic. cbn.
  rewrite edit_written. unfold retouched.
  erewrite displayImage_eval by (cbn; apply lookup_insert_eq).
  reflexivity.
Qed.

Lemma resize_other (size : QSize) (c : Core) (e : CacheEntry) :
  0 <= currentIndex (state c) ->
  entries (cache c) !! fileNameAt (dirManager c) (currentIndex (state c)) = Some e ->
  img_type (entry_image e) <> STATIC ->
  resize size c
  = Returned tt
      (with_effects (effects c ++ [ShowMessage "Editing gifs/video is unsupported."])
         (with_cache {| entries := entries (cache c); locked := false |} c)).
Proof.
  intros Hk He Hkind. apply Z.leb_le in Hk.
  assert (Hns : ImageType_eqb (img_type (entry_image e)) STATIC = false)
    by (destruct (img_type (entry_image e)); [congruence | reflexivity | reflexivity]).
  unfold resize. slot_unfold. rewrite Hk. cbn.
  rewrite (reserve_present _ (CacheOps.lock (cache c)) e) by exact He. cbn.
  rewrite lookup_insert_eq. cbn. rewrite Hns. slot_run.
  rewrite (release_reserved _ (CacheOps.lock (cache c)) e) by exact He.
  reflexivity.
Qed.

Lemma rotateByDegrees_other (degrees : Z) (c : Core) (e : CacheEntry) :
  0 <= currentIndex (state c) ->
  entries (cache c) !! fileNameAt (dirManager c) (currentIndex (state c)) = Some e ->
  img_type (entry_image e) <> STATIC ->
  rotateByDegrees degrees c
  = Returned tt
      (with_effects (effects c ++ [ShowMessage "Editing gifs/video is unsupported."])
         (with_cache {| entries := entries (cache c); locked := false |} c)).
Proof.
  intros Hk He Hkind. apply Z.leb_le in Hk.
  assert (Hns : ImageType_eqb (img_type (entry_image e)) STATIC = false)
    by (destruct (img_type (entry_image e)); [congruence | reflexivity | reflexivity]).
  unfold rotateByDegrees. slot_unfold. rewrite Hk. cbn.
  rewrite (reserve_present _ (CacheOps.lock (cache c)) e) by exact He. cbn.
  rewrite lookup_insert_eq. cbn. rewrite Hns. slot_run.
  rewrite (release_reserved _ (CacheOps.lock (cache c)) e) by exact He.
  reflexivity.
Qed.

Lemma resize_absent (size : QSize) (c : Core) :
  0 <= currentIndex (state c) ->
  entries (cache c) !! fileNameAt (dirManager c) (currentIndex (state c)) = None ->
  resize size c
  = Returned tt
      (with_effects (effects c ++ [QDebug "Core::resize() - could not lock cache object."])
         (with_cache {| entries := entries (cache c); locked := false |} c)).
Proof.
  intros Hk He. apply Z.leb_le in Hk.
  unfold resize. slot_unfold. rewrite Hk. cbn.
  rewrite (reserve_absent _ (CacheOps.lock (cache c))) by exact He.
  reflexivity.
Qed.

Lemma rotateByDegrees_absent (degrees : Z) (c : Core) :
  0 <= currentIndex (state c) ->
  entries (cache c) !! fileNameAt (dirManager c) (currentIndex (state c)) = None ->
  rotateByDegrees degrees c
  = Returned tt
      (with_effects
         (effects c ++ [QDebug "Core::rotateByDegrees() - could not lock cache object."])
         (with_cache {| entries := entries (cache c); locked := false |} c)).
Proof.
  intros Hk He. apply Z.leb_le in Hk.
  unfold rotateByDegrees. slot_unfold. rewrite Hk. cbn.
  rewrite (reserve_absent _ (CacheOps.lock (cache c))) by exact He.
  reflexivity.
Qed.

Lemma resize_negative (size : QSize) (c : Core) :
  currentIndex (state c) < 0 -> resize size c = Returned tt c.
Proof.
  intros Hk. apply Z.leb_gt in Hk. unfold resize. slot_unfold. rewrite Hk. reflexivity.
Qed.

Lemma rotateByDegrees_negative (degrees : Z) (c : Core) :
  currentIndex (state c) < 0 -> rotateByDegrees degrees c = Returned tt c.
Proof.
  intros Hk. apply Z.leb_gt in Hk. unfold rotateByDegrees. slot_unfold. rewrite Hk.
  reflexivity.
Qed.

Lemma scalingRequest_eval (size : QSize) (c : Core) :
  scalingRequest size c
  = Returned tt
      (if hasActiveImage (state c) && negb (isWaitingForLoader (state c)) then
         match entries (cache c) !! fileNameAt (dirManager c) (currentIndex (state c)) with
         | Some e =>
             with_effects
               (effects c ++
                [RequestScaled
                   {| req_image := entry_image e; req_size := size;
                      req_string := filePathAt (dirManager c) (currentIndex (state c)) |}])
               (with_cache {| entries := entries (cache c); locked := false |} c)
         | None => with_cache {| entries := entries (cache c); locked := false |} c
         end
       else c).
Proof.
  unfold scalingRequest. slot_unfold.
  destruct (hasActiveImage (state c) && negb (isWaitingForLoader (state c)));
    [| reflexivity].
  cbn.
  destruct (entries (cache c) !! fileNameAt (dirManager c) (currentIndex (state c)));
    reflexivity.
Qed.

(** ** One of the eleven slots *)

Lemma navigate_moved (n : Navigation) (c : Core) :
  exists c', navigate n c = Returned tt c'
             /\ dirManager c' = dirManager c
             /\ Moved c c'.
Proof.
  destruct (destination n c) as [k|] eqn:Hdest.
  - destruct (navigate_enters n c k Hdest) as (c' & Hrun & Hstate & Hcache & Hdm).
    exists c'. split; [exact Hrun |]. split; [exact Hdm |].
    apply (moved_entered c c' k).
    + rewrite Hstate. apply entered_state.
    + intros Hin. exact (destination_in_range n c k Hin Hdest).
    + exact Hcache.
  - destruct (navigate_stays n c Hdest) as (c' & Hrun & Hstate & Hcache & Hdm).
    exists c'. split; [exact Hrun |]. split; [exact Hdm |].
    apply moved_same; [rewrite Hstate | rewrite Hcache | left; rewrite Hcache]; reflexivity.
Qed.

Lemma resize_moved (size : QSize) (c : Core) :
  exists c', resize size c = Returned tt c'
             /\ dirManager c' = dirManager c
             /\ Moved c c'.
Proof.
  destruct (Z.lt_ge_cases (currentIndex (state c)) 0) as [Hneg | Hk].
  { exists c. split; [apply resize_negative, Hneg |]. split; [reflexivity |].
    apply moved_same; auto. }
  destruct (entries (cache c) !! fileNameAt (dirManager c) (currentIndex (state c)))
    as [e|] eqn:He.
  - assert (img_type (entry_image e) = STATIC \/ img_type (entry_image e) <> STATIC)
      as [Hs | Hs]
      by (destruct (img_type (entry_image e)); [left | right | right]; congruence).
    + eexists. split; [apply (resize_static size c e Hk He Hs) |].
      split; [reflexivity |].
      eapply (moved_edited c _ e); [reflexivity | exact He | reflexivity | reflexivity].
    + eexists. split; [apply (resize_other size c e Hk He Hs) |].
      split; [reflexivity |].
      apply moved_same; [reflexivity | reflexivity | right; reflexivity].
  - eexists. split; [apply (resize_absent size c Hk He) |].
    split; [reflexivity |].
    apply moved_same; [reflexivity | reflexivity | right; reflexivity].
Qed.

Lemma rotateByDegrees_moved (degrees : Z) (c : Core) :
  exists c', rotateByDegrees degrees c = Returned tt c'
             /\ dirManager c' = dirManager c
             /\ Moved c c'.
Proof.
  destruct (Z.lt_ge_cases (currentIndex (state c)) 0) as [Hneg | Hk].
  { exists c. split; [apply rotateByDegrees_negative, Hneg |]. split; [reflexivity |].
    apply moved_same; auto. }
  destruct (entries (cache c) !! fileNameAt (dirManager c) (currentIndex (state c)))
    as [e|] eqn:He.
  - assert (img_type (entry_image e) = STATIC \/ img_type (entry_image e) <> STATIC)
      as [Hs | Hs]
      by (destruct (img_type (entry_image e)); [left | right | right]; congruence).
    + eexists. split; [apply (rotateByDegrees_static degrees c e Hk He Hs) |].
      split; [reflexivity |].
      eapply (moved_edited c _ e); [reflexivity | exact He | reflexivity | reflexivity].
    + eexists. split; [apply (rotateByDegrees_other degrees c e Hk He Hs) |].
      split; [reflexivity |].
      apply moved_same; [reflexivity | reflexivity | right; reflexivity].
  - eexists. split; [apply (rotateByDegrees_absent degrees c Hk He) |].
    split; [reflexivity |].
    apply moved_same; [reflexivity | reflexivity | right; reflexivity].
Qed.

Lemma scalingRequest_moved (size : QSize) (c : Core) :
  exists c', scalingRequest size c = Returned tt c'
             /\ dirManager c' = dirManager c
             /\ Moved c c'.
Proof.
  eexists. split; [apply scalingRequest_eval |].
  destruct (hasActiveImage (state c) && negb (isWaitingForLoader (state c))).
  - destruct (entries (cache c) !! fileNameAt (dirManager c) (currentIndex (state c)));
      (split; [reflexivity |]);
      apply moved_same; [reflexivity | reflexivity | right; reflexivity
                        | reflexivity | reflexivity | right; reflexivity].
  - split; [reflexivity |]. apply moved_same; auto.
Qed.

Lemma onScalingFinished_moved (scaled : option QPixmap) (req : ScalerRequest) (c : Core) :
  exists c', onScalingFinished scaled req c = Returned tt c'
             /\ dirManager c' = dirManager c
             /\ Moved c c'.
Proof.
  unfold onScalingFinished. slot_unfold.
  destruct (hasActiveImage (state c) && _);
    (eexists; split; [reflexivity |]; split; [reflexivity |]; apply moved_same; auto).
Qed.

Lemma onLoadFinished_files (img : Image) (c : Core) :
  exists c', onLoadFinished (Some img) c = Returned tt c'
             /\ dirManager c' = dirManager c
             /\ currentIndex (state c') = currentIndex (state c)
             /\ locked (cache c') = locked (cache c)
             /\ (entries (cache c') = entries (cache c)
                 \/ exists index,
                      currentIndex (state c) - 1 <= index <= currentIndex (state c) + 1
                      /\ entries (cache c) !! fileNameAt (dirManager c) index = None
                      /\ entries (cache c')
                         = <[fileNameAt (dirManager c) index :=
                               {| entry_image := img; entry_reserved := 0 |}]>
                             (entries (cache c))).
Proof.
  pose proof (onLoadFinished_eval img c) as Heval. cbv zeta in Heval.
  set (k := currentIndex (state c)) in *.
  set (index := indexOf (dirManager c) (img_name img)) in *.
  destruct ((index <? k - 1) || (k + 1 <? index)) eqn:Hout.
  { exists (dropped img c). split; [exact Heval |]. cbn. auto. }
  apply orb_false_iff in Hout as [Hlo Hhi].
  apply Z.ltb_ge in Hlo. apply Z.ltb_ge in Hhi.
  destruct (entries (cache c) !! fileNameAt (dirManager c) index) as [e|] eqn:He.
  - destruct (Z.eqb_spec index k) as [Hk | Hk].
    + rewrite (displayImage_eval (entry_image e) (dropped img c) e) in Heval
        by (cbn; fold k; rewrite <- Hk; exact He).
      eexists. split; [exact Heval |]. cbn. auto.
    + exists (dropped img c). split; [exact Heval |]. cbn. auto.
  - assert (Hins : entries (cache (inserted img c))
                   = <[fileNameAt (dirManager c) index :=
                         {| entry_image := img; entry_reserved := 0 |}]> (entries (cache c))).
    { unfold inserted, CacheOps.insert. cbn. fold index. rewrite He. reflexivity. }
    assert (Hlock : locked (cache (inserted img c)) = locked (cache c)).
    { unfold inserted, CacheOps.insert. cbn. fold index. rewrite He. reflexivity. }
    destruct (Z.eqb_spec index k) as [Hk | Hk].
    + rewrite (displayImage_eval img (inserted img c)
                 {| entry_image := img; entry_reserved := 0 |}) in Heval.
      * eexists. split; [exact Heval |]. cbn -[inserted].
        repeat (split; [reflexivity || exact Hlock |]).
        right. exists index. split; [lia |]. split; [exact He | exact Hins].
      * rewrite Hins. cbn. fold k. rewrite <- Hk. apply lookup_insert_eq.
    + exists (inserted img c). split; [exact Heval |].
      repeat (split; [reflexivity || exact Hlock |]).
      right. exists index. split; [lia |]. split; [exact He | exact Hins].
Qed.

Lemma onLoadFinished_moved (img : Image) (c : Core) :
  exists c', onLoadFinished (Some img) c = Returned tt c'
             /\ dirManager c' = dirManager c
             /\ Moved c c'.
Proof.
  destruct (onLoadFinished_files img c)
    as (c' & Hrun & Hdm & Hcur & Hlock & [Hsame | (index & Hnear & Hfree & Hins)]);
    exists c'; (split; [exact Hrun |]); (split; [exact Hdm |]).
  - apply moved_same; auto.
  - apply (moved_inserted c c' img index); auto.
Qed.

Lemma deliver_moved (s : Viewing) (c : Core) :
  s <> LoadFinished None ->
  exists c', deliver s c = Returned tt c'
             /\ dirManager c' = dirManager c
             /\ Moved c c'.
Proof.
  intros Hs. destruct s as [| | | | index | | | size | size | scaled req | [img|]];
    cbv beta iota delta [deliver].
  - apply (navigate_moved Next).
  - apply (navigate_moved Previous).
  - apply (navigate_moved ToFirst).
  - apply (navigate_moved ToLast).
  - apply (navigate_moved (ToIndex index)).
  - apply rotateByDegrees_moved.
  - apply rotateByDegrees_moved.
  - apply resize_moved.
  - apply scalingRequest_moved.
  - apply onScalingFinished_moved.
  - apply onLoadFinished_moved.
  - congruence.
Qed.

(** ** Sequences of them *)

Lemma run_cons (s : Viewing) (l : list Viewing) (c : Core) :
  run (s :: l) c
  = match deliver s c with
    | Returned _ c1 => run l c1
    | Crashed f => Crashed f
    end.
Proof. reflexivity. Qed.

Lemma deliver_null_load (c : Core) : deliver (LoadFinished None) c = Crashed NullDereference.
Proof. reflexivity. Qed.

Lemma null_load_or_not (s : Viewing) : s = LoadFinished None \/ s <> LoadFinished None.
Proof. destruct s as [| | | | ? | | | ? | ? | ? ? | [?|]]; (left; reflexivity) || (right; discriminate). Qed.

Lemma run_preserves (P : Core -> Prop) :
  (forall c c', dirManager c' = dirManager c -> Moved c c' -> P c -> P c') ->
  forall l c c', run l c = Returned tt c' -> P c -> P c'.
Proof.
  intros Hstep l. induction l as [| s l IH]; intros c c' Hrun HP.
  - injection Hrun as <-. exact HP.
  - rewrite run_cons in Hrun.
    destruct (null_load_or_not s) as [-> | Hs].
    + rewrite deliver_null_load in Hrun. discriminate.
    + destruct (deliver_moved s c Hs) as (c1 & Hdel & Hdm & Hmoved).
      rewrite Hdel in Hrun. apply (IH c1 c' Hrun). exact (Hstep c c1 Hdm Hmoved HP).
Qed.

Lemma run_returns (l : list Viewing) (c : Core) :
  ~ In (LoadFinished None) l -> exists c', run l c = Returned tt c'.
Proof.
  revert c. induction l as [| s l IH]; intros c Hnone.
  - exists c. reflexivity.
  - rewrite run_cons.
    assert (Hs : s <> LoadFinished None) by (intros ->; apply Hnone; left; reflexivity).
    destruct (deliver_moved s c Hs) as (c1 & Hdel & _). rewrite Hdel.
    apply IH. intros Hin. apply Hnone. right. exact Hin.
Qed.

Lemma run_null_load (l : list Viewing) (c : Core) :
  In (LoadFinished None) l -> exists f, run l c = Crashed f.
Proof.
  revert c. induction l as [| s l IH]; intros c Hin; [destruct Hin |].
  rewrite run_cons. destruct (deliver s c) as [[] c1 | f] eqn:Hdel.
  - destruct Hin as [-> | Hin].
    + rewrite deliver_null_load in Hdel. discriminate.
    + apply IH, Hin.
  - exists f. reflexivity.
Qed.

(** X1.  A sequence of calls of the eleven slots of [Viewing], on a listing
    that does not change, returns without a fault exactly when none of the
    calls is [onLoadFinished] on a null image.  (The resize dialog, which is
    not one of the eleven, can fault as well, when the current image is not
    cached.) *)
Theorem run_faults_only_on_null_load (l : list Viewing) (c : Core) :
  (exists c', run l c = Returned tt c') <-> ~ In (LoadFinished None) l.
Proof.
  split.
  - intros [c' Hrun] Hin. destruct (run_null_load l c Hin) as [f Hf].
    rewrite Hf in Hrun. discriminate.
  - apply run_returns.
Qed.

Lemma moved_in_range (c c' : Core) :
  dirManager c' = dirManager c -> Moved c c' ->
  0 <= currentIndex (state c) < fileCount (dirManager c) ->
  0 <= currentIndex (state c') < fileCount (dirManager c').
Proof.
  intros Hdm Hmoved Hin. rewrite Hdm.
  destruct Hmoved as [Hk _ _ | k Hk Hrange _ | img index Hk _ _ _ _ | e img Hk _ _ _];
    rewrite Hk; auto.
Qed.

Lemma moved_windowed (c c' : Core) :
  dirManager c' = dirManager c -> Moved c c' -> windowed c -> windowed c'.
Proof.
  intros Hdm Hmoved Hw key e Hkey. rewrite Hdm.
  destruct Hmoved as [Hk Hent _ | k Hk _ Hcache | img index Hk Hnear _ Hent _
                     | e0 img Hk He0 Hent _].
  - rewrite Hk. rewrite Hent in Hkey. exact (Hw key e Hkey).
  - rewrite Hk. rewrite Hcache in Hkey. exact (trimmed_in_window (go k c) key e Hkey).
  - rewrite Hk. rewrite Hent in Hkey.
    destruct (decide (fileNameAt (dirManager c) index = key)) as [<- | Hne].
    + left. apply near_in_window, Hnear.
    + rewrite lookup_insert_ne in Hkey by exact Hne. exact (Hw key e Hkey).
  - rewrite Hk. rewrite Hent in Hkey.
    destruct (decide (fileNameAt (dirManager c) (currentIndex (state c)) = key))
      as [<- | Hne].
    + left. apply current_in_window.
    + rewrite lookup_insert_ne in Hkey by exact Hne. exact (Hw key e Hkey).
Qed.

Lemma moved_unreserved (c c' : Core) :
  dirManager c' = dirManager c -> Moved c c' -> unreserved c -> unreserved c'.
Proof.
  intros _ Hmoved Hu key e Hkey.
  destruct Hmoved as [_ Hent _ | k _ _ Hcache | img index _ _ _ Hent _
                     | e0 img _ He0 Hent _].
  - rewrite Hent in Hkey. exact (Hu key e Hkey).
  - rewrite Hcache in Hkey. apply trimmed_from in Hkey. exact (Hu key e Hkey).
  - rewrite Hent in Hkey.
    destruct (decide (fileNameAt (dirManager c) index = key)) as [<- | Hne].
    + rewrite lookup_insert_eq in Hkey. injection Hkey as <-. reflexivity.
    + rewrite lookup_insert_ne in Hkey by exact Hne. exact (Hu key e Hkey).
  - rewrite Hent in Hkey.
    destruct (decide (fileNameAt (dirManager c) (currentIndex (state c)) = key))
      as [<- | Hne].
    + rewrite lookup_insert_eq in Hkey. injection Hkey as <-. cbn. exact (Hu _ e0 He0).
    + rewrite lookup_insert_ne in Hkey by exact Hne. exact (Hu key e Hkey).
Qed.

Lemma moved_unlocked (c c' : Core) :
  dirManager c' = dirManager c -> Moved c c' ->
  locked (cache c) = false -> locked (cache c') = false.
Proof.
  intros _ Hmoved Hl.
  destruct Hmoved as [_ _ [Hsame | Hfalse] | k _ _ Hcache | img index _ _ _ _ Hsame
                     | e0 img _ _ _ Hfalse]; try congruence.
  rewrite Hcache. reflexivity.
Qed.

(** X2.  While the listing does not change, the eleven slots of [Viewing]
    keep the current index inside it: from an index in [0, fileCount), after
    any sequence of their calls the index is in [0, fileCount).  (A change of
    the listing is another matter: [onFileRemoved] leaves the index where it
    is when another file is removed.) *)
Theorem run_keeps_index_in_range (l : list Viewing) (c c' : Core) :
  run l c = Returned tt c' ->
  0 <= currentIndex (state c) < fileCount (dirManager c) ->
  0 <= currentIndex (state c') < fileCount (dirManager c').
Proof.
  intros Hrun Hin.
  apply (run_preserves
           (fun x => 0 <= currentIndex (state x) < fileCount (dirManager x))
           moved_in_range l c c' Hrun Hin).
Qed.

Lemma run_keeps_index_in_range_witness :
  0 <= currentIndex (state Session.finish) < 3.
Proof.
  apply (run_keeps_index_in_range Session.signals Session.start Session.finish).
  - vm_compute. reflexivity.
  - vm_compute. split; [discriminate | reflexivity].
Defined.

(** X3.  While the listing does not change, the window of the cache is
    kept by the eleven slots of [Viewing], not only established by navigation:
    if every unreserved entry is filed under a name of the window around the
    current index, the same holds after any sequence of their calls, for the
    index then current.  Load completions insert only inside the window, and
    edits keep the key. *)
Theorem run_keeps_window (l : list Viewing) (c c' : Core) :
  run l c = Returned tt c' ->
  windowed c ->
  windowed c'.
Proof. intros Hrun Hw. exact (run_preserves windowed moved_windowed l c c' Hrun Hw). Qed.

Lemma windowed_empty (c : Core) : entries (cache c) = ∅ -> windowed c.
Proof. intros Hempty key e Hkey. rewrite Hempty, lookup_empty in Hkey. discriminate. Qed.

Lemma unreserved_empty (c : Core) : entries (cache c) = ∅ -> unreserved c.
Proof. intros Hempty key e Hkey. rewrite Hempty, lookup_empty in Hkey. discriminate. Qed.

Lemma run_keeps_window_witness : windowed Session.finish.
Proof.
  apply (run_keeps_window Session.signals Session.start Session.finish).
  - vm_compute. reflexivity.
  - apply windowed_empty. reflexivity.
Defined.

(** X4.  None of the eleven slots of [Viewing] returns with the cache
    locked: starting with the cache unlocked, it is unlocked after any
    sequence of their calls, whichever branch each call takes. *)
Theorem run_leaves_cache_unlocked (l : list Viewing) (c c' : Core) :
  run l c = Returned tt c' ->
  locked (cache c) = false ->
  locked (cache c') = false.
Proof.
  intros Hrun Hl.
  exact (run_preserves (fun x => locked (cache x) = false) moved_unlocked l c c' Hrun Hl).
Qed.

Lemma run_leaves_cache_unlocked_witness : locked (cache Session.finish) = false.
Proof.
  apply (run_leaves_cache_unlocked Session.signals Session.start Session.finish).
  - vm_compute. reflexivity.
  - reflexivity.
Defined.

Lemma size_list_to_set_le (l : list string) :
  (size (list_to_set l : gset string) <= length l)%nat.
Proof.
  induction l as [| x l IH]; cbn.
  - rewrite size_empty. lia.
  - rewrite size_union_alt, size_singleton.
    assert (Hle : (size (list_to_set l ∖ {[x]} : gset string)
                   <= size (list_to_set l : gset string))%nat)
      by (apply subseteq_size; intros y Hy; apply elem_of_difference in Hy; apply Hy).
    lia.
Qed.

Lemma size_keys_among (m : gmap string CacheEntry) (l : list string) :
  (forall key e, m !! key = Some e -> key ∈ l) ->
  (size m <= length l)%nat.
Proof.
  intros Hkeys. rewrite <- (size_dom (D := gset string)).
  etransitivity; [| apply size_list_to_set_le].
  apply subseteq_size. intros key Hin.
  apply elem_of_dom in Hin as [e He]. apply elem_of_list_to_set. exact (Hkeys key e He).
Qed.

(** X5.  While the listing does not change and no reservation is
    outstanding, the eleven slots of [Viewing] keep the cache at three images
    at most: if its entries are unreserved and within the window, then after
    any sequence of their calls it has at most three entries, all
    unreserved. *)
Theorem run_keeps_at_most_three (l : list Viewing) (c c' : Core) :
  run l c = Returned tt c' ->
  windowed c ->
  unreserved c ->
  (size (entries (cache c')) <= 3)%nat /\ unreserved c'.
Proof.
  intros Hrun Hw Hu.
  pose proof (run_preserves windowed moved_windowed l c c' Hrun Hw) as Hw'.
  pose proof (run_preserves unreserved moved_unreserved l c c' Hrun Hu) as Hu'.
  split; [| exact Hu'].
  apply (size_keys_among _ (window (dirManager c') (currentIndex (state c')))).
  intros key e Hkey. destruct (Hw' key e Hkey) as [Hin | Hpinned]; [exact Hin |].
  rewrite (Hu' key e Hkey) in Hpinned. lia.
Qed.

Lemma run_keeps_at_most_three_witness :
  (size (entries (cache Session.finish)) <= 3)%nat /\ unreserved Session.finish.
Proof.
  apply (run_keeps_at_most_three Session.signals Session.start Session.finish).
  - vm_compute. reflexivity.
  - apply windowed_empty. reflexivity.
  - apply unreserved_empty. reflexivity.
Defined.

(** ** Navigation *)

(** X6.  At the first file the previous-image slot mirrors the next-image
    slot at the last: without infinite scrolling it only tells the window that
    the start is reached and leaves the object otherwise as it was; with
    infinite scrolling it returns with the last index, [fileCount - 1]. *)
Theorem slotPrevImage_at_first (c : Core) :
  hasImages (dirManager c) = true ->
  currentIndex (state c) <= 0 ->
  (infiniteScrolling c = false ->
     slotPrevImage c = Returned tt (with_effects (effects c ++ [ShowMessageDirectoryStart]) c))
  /\ (infiniteScrolling c = true ->
        exists c', slotPrevImage c = Returned tt c'
                   /\ currentIndex (state c') = fileCount (dirManager c) - 1).
Proof.
  intros Himg Hfirst.
  assert (Hneg : (currentIndex (state c) - 1 <? 0) = true) by (apply Z.ltb_lt; lia).
  split; intros Hinf.
  - rewrite slotPrevImage_eval by exact Himg.
    unfold prev_index. rewrite Hneg, Hinf. reflexivity.
  - exists (preloaded (fileCount (dirManager c) - 1 - 1)
              (entered (go (fileCount (dirManager c) - 1) c))).
    split.
    + rewrite slotPrevImage_eval by exact Himg.
      unfold prev_index. rewrite Hneg, Hinf. reflexivity.
    + rewrite preloaded_state, entered_state. reflexivity.
Qed.

Lemma slotPrevImage_at_first_witness :
  slotPrevImage (Sample.core 0 true false false (Sample.cached []))
  = Returned tt (with_effects [ShowMessageDirectoryStart]
                   (Sample.core 0 true false false (Sample.cached [])))
  /\ exists c', slotPrevImage (Sample.core 0 true false true (Sample.cached []))
                = Returned tt c'
                /\ currentIndex (state c') = 3 - 1.
Proof.
  split.
  - apply (slotPrevImage_at_first (Sample.core 0 true false false (Sample.cached [])));
      [reflexivity | cbn; lia | reflexivity].
  - apply (slotPrevImage_at_first (Sample.core 0 true false true (Sample.cached [])));
      [reflexivity | cbn; lia | reflexivity].
Defined.

(** X7.  In a listing without images the four navigation slots do nothing
    at all: no index is stored, no call is made, the cache is not trimmed. *)
Theorem navigation_ignored_without_images (c : Core) :
  hasImages (dirManager c) = false ->
  slotNextImage c = Returned tt c
  /\ slotPrevImage c = Returned tt c
  /\ jumpToFirst c = Returned tt c
  /\ jumpToLast c = Returned tt c.
Proof.
  intros Himg. repeat split.
  - unfold slotNextImage. slot_unfold. rewrite Himg. reflexivity.
  - unfold slotPrevImage. slot_unfold. rewrite Himg. reflexivity.
  - unfold jumpToFirst. slot_unfold. rewrite Himg. reflexivity.
  - unfold jumpToLast. slot_unfold. rewrite Himg. reflexivity.
Qed.

Lemma navigation_ignored_without_images_witness :
  let c := with_dirManager (Listing.make "/d" [])
             (Sample.core 0 false false true
                (Sample.cached [("a.png", Sample.picture "a.png" STATIC)])) in
  slotNextImage c = Returned tt c
  /\ slotPrevImage c = Returned tt c
  /\ jumpToFirst c = Returned tt c
  /\ jumpToLast c = Returned tt c.
Proof.
  intros c. apply (navigation_ignored_without_images c). reflexivity.
Defined.

(** X8.  Stepping forward and then back returns to the index one started
    from, also across the end of the listing when scrolling is infinite. *)
Theorem next_then_previous_returns (c : Core) :
  hasImages (dirManager c) = true ->
  0 <= currentIndex (state c) < fileCount (dirManager c) ->
  currentIndex (state c) + 1 < fileCount (dirManager c) \/ infiniteScrolling c = true ->
  exists c1 c2,
    slotNextImage c = Returned tt c1
    /\ slotPrevImage c1 = Returned tt c2
    /\ currentIndex (state c2) = currentIndex (state c).
Proof.
  intros Himg Hin Hroom.
  assert (Hnext : exists k, next_index c = Some k
                            /\ (k = currentIndex (state c) + 1
                                \/ (k = 0 /\ infiniteScrolling c = true
                                    /\ currentIndex (state c) = fileCount (dirManager c) - 1))).
  { unfold next_index.
    destruct (Z.leb_spec (fileCount (dirManager c)) (currentIndex (state c) + 1)).
    - destruct Hroom as [Hroom | Hinf]; [lia |]. rewrite Hinf.
      exists 0. split; [reflexivity |]. right.
      split; [reflexivity |]. split; [reflexivity | lia].
    - eexists. split; [reflexivity |]. left. reflexivity. }
  destruct Hnext as (k & Hk & Hcase).
  set (c1 := preloaded (k + 1) (entered (go k c))).
  assert (Hdm : dirManager c1 = dirManager c)
    by (unfold c1; rewrite preloaded_dirManager, entered_dirManager; reflexivity).
  assert (Hcur : currentIndex (state c1) = k)
    by (unfold c1; rewrite preloaded_state, entered_state; reflexivity).
  assert (Hinf1 : infiniteScrolling c1 = infiniteScrolling c)
    by (unfold c1; rewrite preloaded_infiniteScrolling, entered_infiniteScrolling;
        reflexivity).
  assert (Hprev : prev_index c1 = Some (currentIndex (state c))).
  { unfold prev_index. rewrite Hcur, Hdm, Hinf1.
    destruct Hcase as [-> | (-> & Hinf & Hlast)].
    - destruct (Z.ltb_spec (currentIndex (state c) + 1 - 1) 0); [lia |].
      f_equal. lia.
    - cbn. rewrite Hinf. f_equal. lia. }
  exists c1, (preloaded (currentIndex (state c) - 1) (entered (go (currentIndex (state c)) c1))).
  split; [| split].
  - rewrite slotNextImage_eval, Hk by exact Himg. reflexivity.
  - rewrite slotPrevImage_eval, Hprev by (rewrite Hdm; exact Himg). reflexivity.
  - rewrite preloaded_state, entered_state. reflexivity.
Qed.

Lemma next_then_previous_returns_witness :
  exists c1 c2,
    slotNextImage (Sample.core 2 true false true (Sample.cached [])) = Returned tt c1
    /\ slotPrevImage c1 = Returned tt c2
    /\ currentIndex (state c2) = 2.
Proof.
  apply (next_then_previous_returns (Sample.core 2 true false true (Sample.cached []))).
  - reflexivity.
  - cbn. lia.
  - right. reflexivity.
Defined.

Lemma frame_calls_not_loader (img : Image) (visible : bool) :
  forallb (fun e => negb (is_loader_call e)) (frame_calls img visible) = true.
Proof.
  unfold frame_calls. destruct (img_type img), visible; reflexivity.
Qed.

(** X9.  Opening an index whose image is in the cache shows it at once:
    the object ends up not waiting, with an active image whose name is the
    cached one's, and nothing is asked of the loader. *)
Theorem loadByIndex_of_cached_asks_no_loader (index : Z) (c : Core) (e : CacheEntry) :
  0 <= index < fileCount (dirManager c) ->
  entries (cache c) !! fileNameAt (dirManager c) index = Some e ->
  exists c' new,
    loadByIndex index c = Returned true c'
    /\ isWaitingForLoader (state c') = false
    /\ hasActiveImage (state c') = true
    /\ displayingFileName (state c') = img_name (entry_image e)
    /\ effects c' = (effects c ++ new)%list
    /\ forallb (fun x => negb (is_loader_call x)) new = true
    /\ incl (frame_calls (entry_image e) (mwVisible c)) new.
Proof.
  intros Hin He.
  assert (Hkept : entries (trimmed (go index c)) !! fileNameAt (dirManager c) index = Some e).
  { rewrite <- He. apply (trimmed_keeps (go index c)). apply current_in_window. }
  exists (entered (go index c)). eexists.
  split; [apply loadByIndex_inside, Hin |].
  unfold entered. cbn. rewrite Hkept. cbn.
  repeat (split; [reflexivity |]).
  split; [rewrite <- app_assoc; reflexivity |].
  split.
  - cbn. rewrite forallb_app, frame_calls_not_loader. reflexivity.
  - intros x Hx. right. right. right. apply in_or_app. left. exact Hx.
Qed.

Lemma loadByIndex_of_cached_asks_no_loader_witness :
  let a := Sample.picture "a.png" STATIC in
  exists c' new,
    loadByIndex 0 (Sample.core 1 false false false (Sample.cached [("a.png", a)]))
    = Returned true c'
    /\ isWaitingForLoader (state c') = false
    /\ hasActiveImage (state c') = true
    /\ displayingFileName (state c') = "a.png"
    /\ effects c' = ([] ++ new)%list
    /\ forallb (fun x => negb (is_loader_call x)) new = true
    /\ incl (frame_calls a true) new.
Proof.
  intros a.
  apply (loadByIndex_of_cached_asks_no_loader 0
           (Sample.core 1 false false false (Sample.cached [("a.png", a)]))
           {| entry_image := a; entry_reserved := 0 |}).
  - cbn. lia.
  - reflexivity.
Defined.

(** X10.  A miss and its completion compose.  Opening an index whose image
    is not cached leaves the object waiting, after one [loadExclusive] of the
    path at that index; when the decode of that file then arrives, it is
    cached under the name at the index and displayed, and the object no
    longer waits. *)
Theorem miss_then_completion_displays (index : Z) (c : Core) (img : Image) :
  0 <= index < fileCount (dirManager c) ->
  entries (cache c) !! fileNameAt (dirManager c) index = None ->
  indexOf (dirManager c) (img_name img) = index ->
  exists c1 c2,
    loadByIndex index c = Returned true c1
    /\ isWaitingForLoader (state c1) = true
    /\ effects c1
       = (effects c ++
          [SetInfoString (InfoString.position index (fileCount (dirManager c)));
           TimerStart;
           LoadExclusive (filePathAt (dirManager c) index)])%list
    /\ onLoadFinished (Some img) c1 = Returned tt c2
    /\ isWaitingForLoader (state c2) = false
    /\ hasActiveImage (state c2) = true
    /\ displayingFileName (state c2) = img_name img
    /\ CacheOps.get (fileNameAt (dirManager c) index) (cache c2) = Some img.
Proof.
  intros Hin He Hname.
  assert (Hgone : entries (trimmed (go index c)) !! fileNameAt (dirManager c) index = None).
  { rewrite <- He. apply (trimmed_keeps (go index c)). apply current_in_window. }
  set (c1 := entered (go index c)).
  assert (Hc1 : c1 = with_effects
                       (effects (started (go index c)) ++
                        [LoadExclusive (filePathAt (dirManager c) index)])
                       (started (go index c))).
  { unfold c1, entered. cbn. rewrite Hgone. reflexivity. }
  assert (Hdm : dirManager c1 = dirManager c) by (rewrite Hc1; reflexivity).
  assert (Hcur : currentIndex (state c1) = index) by (rewrite Hc1; reflexivity).
  assert (Hmiss : entries (cache c1) !! fileNameAt (dirManager c) index = None)
    by (rewrite Hc1; exact Hgone).
  pose proof (onLoadFinished_eval img c1) as Heval. cbv zeta in Heval.
  rewrite Hdm, Hcur, Hname, Hmiss in Heval.
  assert ((index <? index - 1) || (index + 1 <? index) = false) as Hwin
    by (apply orb_false_iff; split; apply Z.ltb_ge; lia).
  rewrite Hwin, Z.eqb_refl in Heval.
  assert (Hins : entries (cache (inserted img c1))
                 = <[fileNameAt (dirManager c) index :=
                       {| entry_image := img; entry_reserved := 0 |}]> (entries (cache c1))).
  { unfold inserted, CacheOps.insert. rewrite Hdm, Hname, Hmiss. reflexivity. }
  rewrite (displayImage_eval img (inserted img c1)
             {| entry_image := img; entry_reserved := 0 |}) in Heval.
  2:{ rewrite Hins. change (dirManager (inserted img c1)) with (dirManager c1).
      change (state (inserted img c1)) with (state c1).
      rewrite Hdm, Hcur. apply lookup_insert_eq. }
  exists c1. eexists.
  split; [apply loadByIndex_inside, Hin |].
  split; [rewrite Hc1; reflexivity |].
  split; [rewrite Hc1; cbn; rewrite <- app_assoc; reflexivity |].
  split; [exact Heval |].
  repeat (split; [reflexivity |]).
  unfold CacheOps.get. cbn -[inserted]. rewrite Hins, lookup_insert_eq. reflexivity.
Qed.

Lemma miss_then_completion_displays_witness :
  let b := Sample.picture "b.gif" ANIMATED in
  let c := Sample.core 0 false false false (Sample.cached []) in
  exists c1 c2,
    loadByIndex 1 c = Returned true c1
    /\ isWaitingForLoader (state c1) = true
    /\ effects c1
       = ([] ++ [SetInfoString (InfoString.position 1 3); TimerStart;
                 LoadExclusive "/d/b.gif"])%list
    /\ onLoadFinished (Some b) c1 = Returned tt c2
    /\ isWaitingForLoader (state c2) = false
    /\ hasActiveImage (state c2) = true
    /\ displayingFileName (state c2) = "b.gif"
    /\ CacheOps.get "b.gif" (cache c2) = Some b.
Proof.
  intros b c.
  apply (miss_then_completion_displays 1 c b).
  - cbn. lia.
  - reflexivity.
  - reflexivity.
Defined.

(** ** Load completion and display *)

(** X11.  A finished load never replaces or evicts what is cached, and
    never moves the current index: every entry of the cache is there
    afterwards, with the same image and reservation count. *)
Theorem onLoadFinished_keeps_entries (img : Image) (c : Core) :
  exists c',
    onLoadFinished (Some img) c = Returned tt c'
    /\ currentIndex (state c') = currentIndex (state c)
    /\ forall key e, entries (cache c) !! key = Some e -> entries (cache c') !! key = Some e.
Proof.
  destruct (onLoadFinished_files img c)
    as (c' & Hrun & _ & Hcur & _ & [Hsame | (index & _ & Hfree & Hins)]);
    exists c'; (split; [exact Hrun |]); (split; [exact Hcur |]); intros key e Hkey.
  - rewrite Hsame. exact Hkey.
  - rewrite Hins. rewrite lookup_insert_ne; [exact Hkey |].
    intros <-. rewrite Hfree in Hkey. discriminate.
Qed.

Lemma displayImage_uncached (img : Image) (c : Core) :
  entries (cache c) !! fileNameAt (dirManager c) (currentIndex (state c)) = None ->
  displayImage (Some img) c = Crashed NullDereference.
Proof.
  intros He. unfold displayImage, showGui, updateInfoString. slot_unfold.
  destruct (img_type img); cbn.
  - rewrite He. reflexivity.
  - rewrite He. reflexivity.
  - destruct (mwVisible c); cbn; rewrite He; reflexivity.
Qed.

(** X12.  [displayImage] on an image that is not null returns exactly when
    the cache holds an entry for the current index: the info string is built
    from that entry, not from the image passed in, and without it the slot
    dereferences a null pointer. *)
Theorem displayImage_returns_iff_current_cached (img : Image) (c : Core) :
  (exists c', displayImage (Some img) c = Returned tt c')
  <-> is_Some (entries (cache c) !! fileNameAt (dirManager c) (currentIndex (state c))).
Proof.
  split.
  - intros [c' Hrun].
    destruct (entries (cache c) !! fileNameAt (dirManager c) (currentIndex (state c)))
      as [e|] eqn:He; [eauto |].
    rewrite (displayImage_uncached img c He) in Hrun. discriminate.
  - intros [e He]. eexists. apply (displayImage_eval img c e He).
Qed.

(** ** Edits and scaling *)

(** X13.  An edit of a cached static image is made in place: [resize] sets
    the edited variant to the scaled content and [rotateByDegrees] to the
    rotated content of what the image currently shows, the entry keeps its
    key and reservation count, no other entry changes, the cache is unlocked,
    and the edited image is displayed. *)
Theorem edit_of_static_is_made_in_place
    (size : QSize) (degrees : Z) (c : Core) (e : CacheEntry) :
  0 <= currentIndex (state c) ->
  entries (cache c) !! fileNameAt (dirManager c) (currentIndex (state c)) = Some e ->
  img_type (entry_image e) = STATIC ->
  let key := fileNameAt (dirManager c) (currentIndex (state c)) in
  let after (content : QImage) (c' : Core) :=
    let edited := setEditedImage (entry_image e) content in
    entries (cache c')
    = <[key := {| entry_image := edited; entry_reserved := entry_reserved e |}]>
        (entries (cache c))
    /\ locked (cache c') = false
    /\ state c' = {| currentIndex := currentIndex (state c);
                     hasActiveImage := true;
                     isWaitingForLoader := false;
                     displayingFileName := img_name (entry_image e) |}
    /\ effects c'
       = (effects c ++
          [TimerStop; ShowImage content; ImageIndexChanged (currentIndex (state c));
           SetInfoString
             (InfoString.loaded (currentIndex (state c)) (fileCount (dirManager c))
                edited)])%list in
  (exists c', resize size c = Returned tt c'
              /\ after (Scaled (getImage (entry_image e)) size 1) c')
  /\ (exists c', rotateByDegrees degrees c = Returned tt c'
                 /\ after (Rotated (getImage (entry_image e)) degrees) c').
Proof.
  intros Hk He Hstatic key after.
  assert (Hafter : forall content, after content (retouched key e content c)).
  { intros content. unfold after, retouched, displayed, frame_calls. cbn.
    rewrite Hstatic. repeat split. }
  split; eexists; (split; [| apply Hafter]).
  - apply (resize_static size c e Hk He Hstatic).
  - apply (rotateByDegrees_static degrees c e Hk He Hstatic).
Qed.

Lemma edit_of_static_is_made_in_place_witness :
  let a := Sample.picture "a.png" STATIC in
  let c := Sample.core 0 true false false (Sample.cached [("a.png", a)]) in
  (exists c', resize {| qs_width := 4; qs_height := 3 |} c = Returned tt c'
              /\ CacheOps.get "a.png" (cache c')
                 = Some (setEditedImage a
                           (Scaled (Decoded "a.png") {| qs_width := 4; qs_height := 3 |} 1)))
  /\ (exists c', rotateByDegrees 90 c = Returned tt c'
                 /\ CacheOps.get "a.png" (cache c')
                    = Some (setEditedImage a (Rotated (Decoded "a.png") 90))).
Proof.
  intros a c.
  destruct (edit_of_static_is_made_in_place {| qs_width := 4; qs_height := 3 |} 90 c
              {| entry_image := a; entry_reserved := 0 |})
    as [(c1 & Hresize & Hent1 & _) (c2 & Hrotate & Hent2 & _)].
  - cbn. lia.
  - reflexivity.
  - reflexivity.
  - split.
    + exists c1. split; [exact Hresize |].
      unfold CacheOps.get. rewrite Hent1, lookup_insert_eq. reflexivity.
    + exists c2. split; [exact Hrotate |].
      unfold CacheOps.get. rewrite Hent2, lookup_insert_eq. reflexivity.
Defined.

(** X14.  A scaled frame that comes back before any navigation is applied:
    with an active image that is cached and no load pending, [scalingRequest]
    issues one request, tagged with the path at the current index, and the
    completion of that request hands the result to the viewer. *)
Theorem scaled_frame_comes_back
    (size : QSize) (scaled : option QPixmap) (c : Core) (e : CacheEntry) :
  hasActiveImage (state c) = true ->
  isWaitingForLoader (state c) = false ->
  entries (cache c) !! fileNameAt (dirManager c) (currentIndex (state c)) = Some e ->
  let req := {| req_image := entry_image e; req_size := size;
                req_string := filePathAt (dirManager c) (currentIndex (state c)) |} in
  exists c1,
    scalingRequest size c = Returned tt c1
    /\ effects c1 = (effects c ++ [RequestScaled req])%list
    /\ state c1 = state c
    /\ entries (cache c1) = entries (cache c)
    /\ onScalingFinished scaled req c1
       = Returned tt (with_effects (effects c1 ++ [UpdateFrame scaled]) c1).
Proof.
  intros Hactive Hwait He req.
  eexists. split; [apply scalingRequest_eval |].
  rewrite Hactive, Hwait, He. cbn.
  repeat (split; [reflexivity |]).
  unfold onScalingFinished. slot_unfold. cbn. rewrite Hactive, String.eqb_refl.
  reflexivity.
Qed.

Lemma scaled_frame_comes_back_witness :
  let a := Sample.picture "a.png" STATIC in
  let c := Sample.core 0 true false false (Sample.cached [("a.png", a)]) in
  let size := {| qs_width := 4; qs_height := 3 |} in
  let req := {| req_image := a; req_size := size; req_string := "/d/a.png" |} in
  exists c1,
    scalingRequest size c = Returned tt c1
    /\ effects c1 = ([] ++ [RequestScaled req])%list
    /\ state c1 = state c
    /\ entries (cache c1) = entries (cache c)
    /\ onScalingFinished (Some 7) req c1
       = Returned tt (with_effects (effects c1 ++ [UpdateFrame (Some 7)]) c1).
Proof.
  intros a c size req.
  apply (scaled_frame_comes_back size (Some 7) c {| entry_image := a; entry_reserved := 0 |});
    reflexivity.
Defined.

(** ** Changes of the listing and the resize dialog *)

Arguments loadByIndexBlocking : simpl never.

(** X15.  The removal of a file other than the current one only reaches
    the thumbnail strip: the object is unchanged, and in particular the
    current index is not shifted when the removed file came before it. *)
Theorem onFileRemoved_elsewhere (index : Z) (w : Widgets) (c : Core) :
  currentIndex (state c) <> index ->
  onFileRemoved index w c
  = Returned (w ++ [(length (effects c), RemoveItemAt index)])%list c.
Proof.
  intros Hother. apply Z.eqb_neq in Hother.
  unfold onFileRemoved, widget. slot_unfold. cbn. rewrite Hother. reflexivity.
Qed.

Lemma onFileRemoved_elsewhere_witness :
  onFileRemoved 0 [] (Sample.core 2 true false false (Sample.cached []))
  = Returned [(0%nat, RemoveItemAt 0)] (Sample.core 2 true false false (Sample.cached [])).
Proof.
  apply (onFileRemoved_elsewhere 0 [] (Sample.core 2 true false false (Sample.cached []))).
  cbn. lia.
Defined.

(** X16.  When the current file is removed and the listing is left empty,
    the viewer is closed and the info string set to ["No file opened."]; the
    navigation state, [hasActiveImage] included, and the cache stay as they
    were. *)
Theorem onFileRemoved_last_file (index : Z) (w : Widgets) (c : Core) :
  currentIndex (state c) = index ->
  fileCount (dirManager c) = 0 ->
  onFileRemoved index w c
  = Returned (w ++ [(length (effects c), RemoveItemAt index)])%list
      (with_effects (effects c ++ [CloseImage; SetInfoString "No file opened."]) c).
Proof.
  intros Hcur Hempty.
  unfold onFileRemoved, widget. slot_unfold. cbn.
  rewrite Hcur, Z.eqb_refl, Hempty. cbn.
  rewrite <- app_assoc. reflexivity.
Qed.

Lemma onFileRemoved_last_file_witness :
  let c := with_dirManager (Listing.make "/d" [])
             (Sample.core 0 true false false
                (Sample.cached [("a.png", Sample.picture "a.png" STATIC)])) in
  onFileRemoved 0 [] c
  = Returned [(0%nat, RemoveItemAt 0)]
      (with_effects [CloseImage; SetInfoString "No file opened."] c).
Proof.
  intros c. apply (onFileRemoved_last_file 0 [] c); reflexivity.
Defined.

(** X17.  When the current file is removed from a listing that still has
    files, the file now at the same index is opened; if the removed file was
    the last one, the index steps back by one and that file is opened.  Either
    way the slot returns with the index inside the listing. *)
Theorem onFileRemoved_current (index : Z) (w : Widgets) (c : Core) :
  currentIndex (state c) = index ->
  fileCount (dirManager c) <> 0 ->
  0 <= index <= fileCount (dirManager c) ->
  let k := if index <? fileCount (dirManager c) then index else index - 1 in
  onFileRemoved index w c
  = Returned (w ++ [(length (effects c), RemoveItemAt index)])%list (entered (go k c))
  /\ currentIndex (state (entered (go k c))) = k
  /\ 0 <= k < fileCount (dirManager c).
Proof.
  intros Hcur Hsome Hin k.
  assert (Hnz : (fileCount (dirManager c) =? 0) = false) by (apply Z.eqb_neq; exact Hsome).
  split; [| split; [apply entered_state |]].
  - unfold onFileRemoved, widget. slot_unfold. cbn.
    rewrite Hcur, Z.eqb_refl, Hnz. unfold k.
    destruct (Z.ltb_spec index (fileCount (dirManager c))) as [Hlt | Hge].
    + rewrite loadByIndexBlocking_inside by lia. reflexivity.
    + rewrite loadByIndexBlocking_outside by lia. cbn.
      rewrite Hcur.
      rewrite (loadByIndexBlocking_inside (index - 1)
                 (with_state (set_currentIndex (index - 1) (state c)) c))
        by (cbn; lia).
      reflexivity.
  - unfold k. destruct (Z.ltb_spec index (fileCount (dirManager c))); lia.
Qed.

Lemma onFileRemoved_current_witness :
  let c := Sample.core 3 true false false (Sample.cached []) in
  onFileRemoved 3 [] c = Returned [(0%nat, RemoveItemAt 3)] (entered (go 2 c))
  /\ currentIndex (state (entered (go 2 c))) = 2
  /\ 0 <= 2 < 3.
Proof.
  intros c. apply (onFileRemoved_current 3 [] c).
  - reflexivity.
  - cbn. discriminate.
  - cbn. lia.
Defined.

(** X18.  The resize dialog is opened exactly when the image of the
    current index is in the cache; when it is not, the slot dereferences the
    null pointer that [get] returns. *)
Theorem showResizeDialog_returns_iff_cached (w : Widgets) (c : Core) :
  (exists w' c', showResizeDialog w c = Returned w' c')
  <-> is_Some (entries (cache c) !! fileNameAt (dirManager c) (currentIndex (state c))).
Proof.
  unfold showResizeDialog, widget. slot_unfold. cbn.
  destruct (entries (cache c) !! fileNameAt (dirManager c) (currentIndex (state c)))
    as [e|]; cbn; split.
  - eauto.
  - intros _. eauto.
  - intros (w' & c' & H). discriminate.
  - intros [e H]. discriminate.
Qed.

(** ** What navigation keeps in the cache *)

Lemma trimmed_retains (c : Core) (key : string) (e : CacheEntry) :
  entries (cache c) !! key = Some e ->
  key ∈ window (dirManager c) (currentIndex (state c)) \/ (0 < entry_reserved e)%nat ->
  entries (trimmed c) !! key = Some e.
Proof.
  intros He Hkeep. unfold trimmed. cbn.
  apply map_lookup_filter_Some. split; [exact He |]. cbn.
  unfold CacheOps.kept. apply orb_true_iff. destruct Hkeep as [Hin | Hpinned].
  - left. apply bool_decide_eq_true. exact Hin.
  - right. destruct (entry_reserved e); [lia | reflexivity].
Qed.

(** X19.  Navigation never evicts the images around its destination: an
    entry filed under the name at [k-1], [k] or [k+1], or a reserved entry, is
    in the cache after a navigation to [k], unchanged. *)
Theorem navigation_keeps_neighbours
    (n : Navigation) (c : Core) (k : Z) (key : string) (e : CacheEntry) :
  destination n c = Some k ->
  entries (cache c) !! key = Some e ->
  key ∈ [fileNameAt (dirManager c) (k - 1);
         fileNameAt (dirManager c) k;
         fileNameAt (dirManager c) (k + 1)]
  \/ (0 < entry_reserved e)%nat ->
  exists c', navigate n c = Returned tt c' /\ entries (cache c') !! key = Some e.
Proof.
  intros Hdest He Hkeep.
  destruct (navigate_enters n c k Hdest) as (c' & Hrun & _ & Hcache & _).
  exists c'. split; [exact Hrun |].
  rewrite Hcache. apply (trimmed_retains (go k c) key e He). exact Hkeep.
Qed.

Lemma navigation_keeps_neighbours_witness :
  let a := Sample.picture "a.png" STATIC in
  exists c',
    navigate Next (Sample.core 0 true false false (Sample.cached [("a.png", a)]))
    = Returned tt c'
    /\ entries (cache c') !! "a.png" = Some {| entry_image := a; entry_reserved := 0 |}.
Proof.
  intros a.
  apply (navigation_keeps_neighbours Next
           (Sample.core 0 true false false (Sample.cached [("a.png", a)])) 1).
  - reflexivity.
  - reflexivity.
  - left. apply list_elem_of_here.
Defined.

(** X20.  Stepping forward and back shows the first image again from the
    cache: if the image of the current index is cached and there is a next
    file, then after [slotNextImage] and [slotPrevImage] that image is
    displayed, and the object does not wait for the loader. *)
Theorem step_back_is_served_from_cache (c : Core) (e : CacheEntry) :
  hasImages (dirManager c) = true ->
  0 <= currentIndex (state c) ->
  currentIndex (state c) + 1 < fileCount (dirManager c) ->
  entries (cache c) !! fileNameAt (dirManager c) (currentIndex (state c)) = Some e ->
  exists c1 c2,
    slotNextImage c = Returned tt c1
    /\ slotPrevImage c1 = Returned tt c2
    /\ currentIndex (state c2) = currentIndex (state c)
    /\ isWaitingForLoader (state c2) = false
    /\ hasActiveImage (state c2) = true
    /\ displayingFileName (state c2) = img_name (entry_image e)
    /\ incl (frame_calls (entry_image e) (mwVisible c1)) (effects c2).
Proof.
  intros Himg Hlo Hhi He.
  set (k := currentIndex (state c)) in *.
  assert (Hnext : next_index c = Some (k + 1)).
  { unfold next_index. fold k.
    destruct (Z.leb_spec (fileCount (dirManager c)) (k + 1)); [lia | reflexivity]. }
  set (c1 := preloaded (k + 1 + 1) (entered (go (k + 1) c))).
  assert (Hdm : dirManager c1 = dirManager c)
    by (unfold c1; rewrite preloaded_dirManager, entered_dirManager; reflexivity).
  assert (Hcur : currentIndex (state c1) = k + 1)
    by (unfold c1; rewrite preloaded_state, entered_state; reflexivity).
  assert (He1 : entries (cache c1) !! fileNameAt (dirManager c) k = Some e).
  { unfold c1. rewrite preloaded_cache, entered_cache.
    apply (trimmed_retains (go (k + 1) c) _ e He). left.
    unfold window. cbn. replace (k + 1 - 1) with k by lia. apply list_elem_of_here. }
  assert (Hprev : prev_index c1 = Some k).
  { unfold prev_index. rewrite Hcur.
    destruct (Z.ltb_spec (k + 1 - 1) 0); [lia |]. f_equal. lia. }
  assert (He2 : entries (trimmed (go k c1)) !! fileNameAt (dirManager c1) k = Some e).
  { rewrite Hdm. apply (trimmed_retains (go k c1) _ e He1). left.
    change (dirManager (go k c1)) with (dirManager c1). rewrite Hdm.
    apply current_in_window. }
  exists c1, (preloaded (k - 1) (entered (go k c1))).
  split; [rewrite slotNextImage_eval, Hnext by exact Himg; reflexivity |].
  split; [rewrite slotPrevImage_eval, Hprev by (rewrite Hdm; exact Himg); reflexivity |].
  rewrite preloaded_state.
  assert (Hshown : entered (go k c1)
                   = displayed (entry_image e)
                       (InfoString.loaded k (fileCount (dirManager c1)) (entry_image e))
                       (started (go k c1))).
  { unfold entered. cbn -[trimmed started]. 
    change (cache (started (go k c1))) with (trimmed (go k c1)).
    rewrite He2. reflexivity. }
  rewrite Hshown. repeat (split; [reflexivity |]).
  intros x Hx.
  assert (Hin : In x (effects (displayed (entry_image e)
                   (InfoString.loaded k (fileCount (dirManager c1)) (entry_image e))
                   (started (go k c1))))).
  { cbn. apply in_or_app. right. right. apply in_or_app. left. exact Hx. }
  revert Hin. rewrite <- Hshown. unfold preloaded.
  destruct (_ && _); cbn; [intros Hin; apply in_or_app; left; exact Hin | auto].
Qed.

Lemma step_back_is_served_from_cache_witness :
  let a := Sample.picture "a.png" STATIC in
  exists c1 c2,
    slotNextImage (Sample.core 0 true false false (Sample.cached [("a.png", a)]))
    = Returned tt c1
    /\ slotPrevImage c1 = Returned tt c2
    /\ currentIndex (state c2) = 0
    /\ isWaitingForLoader (state c2) = false
    /\ hasActiveImage (state c2) = true
    /\ displayingFileName (state c2) = "a.png"
    /\ incl (frame_calls a (mwVisible c1)) (effects c2).
Proof.
  intros a.
  apply (step_back_is_served_from_cache
           (Sample.core 0 true false false (Sample.cached [("a.png", a)]))
           {| entry_image := a; entry_reserved := 0 |}).
  - reflexivity.
  - cbn. lia.
  - cbn. lia.
  - reflexivity.
Defined.
